(** * Community feed: the stub data layer of [community.tsx]

    A shallow embedding of the module-level store ([_stubPosts],
    [_stubComments]) and of the functions working on it: [fetchPosts],
    [createPost], [toggleReaction], [fetchComments], [addComment], together
    with the three handlers of the screen that call them ([submit], [send],
    [handleReact]), the helpers of the screen ([timeAgo], [initials]), and
    the functions of the sign-in, sign-up, layout and profile screens that
    write and read the session.

    Modelling choices.
    - JavaScript numbers that hold counters and millisecond time stamps are
      integers ([Z]); [Math.max(0, c - 1)] is [0 `max` (c - 1)].
    - [string[]] is [list string]; [includes] is list membership, [filter]
      is stdpp's [filter], the spread [[...a, x]] is [a ++ [x]].
    - [_stubComments], an object used as a dictionary from post ids to
      arrays, is a [gmap string (list Comment.t)]: the properties of its
      own. A name every object inherits from [Object.prototype]
      ([inheritedNames]) is no key of the dictionary, yet looked up in the
      source it gives a function, on which [push] and [sort] throw. The
      map does not follow the source there: what is stated about the
      promises of [fetchComments] and [addComment] is stated for the other
      ids ([plainId]), which include every id [createPost] mints.
    - Strings are sequences of ASCII characters: [trim], [toLowerCase],
      [toUpperCase] and [length] are those of the source on such strings
      ([asciiOnly]).
    - [Date.now()] is an input of the functions that read the clock.
    - An [async] function is a state transformer giving an [Outcome]: the
      promise resolves with a value or rejects with an error. *)

From stdpp Require Import gmap strings list fin_maps pretty sorting.
From Stdlib Require Import ZArith QArith Lia.

Local Open Scope Z_scope.

(** ** Data model ([communityTypes.ts]) *)

Inductive MediaType := image | video.

Inductive Reaction := like | dislike.

Global Instance MediaType_eq_dec : EqDecision MediaType.
Proof. solve_decision. Defined.

Global Instance Reaction_eq_dec : EqDecision Reaction.
Proof. solve_decision. Defined.

Module Post.

Record t := mk {
  id : string;
  authorId : string;
  authorName : string;
  title : string;
  description : string;
  mediaUrl : option string;
  mediaType : option MediaType;
  likeCount : Z;
  dislikeCount : Z;
  likedBy : list string;
  dislikedBy : list string;
  commentCount : Z;
  createdAt : Z
}.

Global Instance eq_dec : EqDecision t.
Proof. solve_decision. Defined.

(** [post[`${reaction}dBy`]] and [post[`${reaction}Count`]]: the field is
    chosen by the reaction kind. *)
Definition getBy (r : Reaction) (p : t) : list string :=
  match r with like => likedBy p | dislike => dislikedBy p end.

Definition getCount (r : Reaction) (p : t) : Z :=
  match r with like => likeCount p | dislike => dislikeCount p end.

Definition setBy (r : Reaction) (l : list string) (p : t) : t :=
  match r with
  | like =>
      mk (id p) (authorId p) (authorName p) (title p) (description p)
         (mediaUrl p) (mediaType p) (likeCount p) (dislikeCount p)
         l (dislikedBy p) (commentCount p) (createdAt p)
  | dislike =>
      mk (id p) (authorId p) (authorName p) (title p) (description p)
         (mediaUrl p) (mediaType p) (likeCount p) (dislikeCount p)
         (likedBy p) l (commentCount p) (createdAt p)
  end.

Definition setCount (r : Reaction) (c : Z) (p : t) : t :=
  match r with
  | like =>
      mk (id p) (authorId p) (authorName p) (title p) (description p)
         (mediaUrl p) (mediaType p) c (dislikeCount p)
         (likedBy p) (dislikedBy p) (commentCount p) (createdAt p)
  | dislike =>
      mk (id p) (authorId p) (authorName p) (title p) (description p)
         (mediaUrl p) (mediaType p) (likeCount p) c
         (likedBy p) (dislikedBy p) (commentCount p) (createdAt p)
  end.

Definition setCommentCount (c : Z) (p : t) : t :=
  mk (id p) (authorId p) (authorName p) (title p) (description p)
     (mediaUrl p) (mediaType p) (likeCount p) (dislikeCount p)
     (likedBy p) (dislikedBy p) c (createdAt p).

End Post.

(** [Omit<Post, "id">], the argument of [createPost]. *)
Module PostDraft.

Record t := mk {
  authorId : string;
  authorName : string;
  title : string;
  description : string;
  mediaUrl : option string;
  mediaType : option MediaType;
  likeCount : Z;
  dislikeCount : Z;
  likedBy : list string;
  dislikedBy : list string;
  commentCount : Z;
  createdAt : Z
}.

(** [{ ...post, id }] *)
Definition withId (i : string) (d : t) : Post.t :=
  Post.mk i (authorId d) (authorName d) (title d) (description d)
          (mediaUrl d) (mediaType d) (likeCount d) (dislikeCount d)
          (likedBy d) (dislikedBy d) (commentCount d) (createdAt d).

End PostDraft.

Module Comment.

Record t := mk {
  id : string;
  authorId : string;
  authorName : string;
  text : string;
  createdAt : Z
}.

Global Instance eq_dec : EqDecision t.
Proof. solve_decision. Defined.

End Comment.

(** [Omit<Comment, "id">], the argument of [addComment]. *)
Module CommentDraft.

Record t := mk {
  authorId : string;
  authorName : string;
  text : string;
  createdAt : Z
}.

(** [{ ...comment, id }] *)
Definition withId (i : string) (d : t) : Comment.t :=
  Comment.mk i (authorId d) (authorName d) (text d) (createdAt d).

End CommentDraft.

(** ** The store and the monad of asynchronous functions *)

Record Store := mkStore {
  _stubPosts : list Post.t;
  _stubComments : gmap string (list Comment.t)
}.

(** [let _stubPosts = []; let _stubComments = {};] *)
Definition initialStore : Store := mkStore [] ∅.

(** The error taxonomy the specification names. No function of the stub
    layer raises any of them; they are here so that "fails with" can be
    stated about an outcome. *)
Inductive FeedError := NotFound | EmptyText | StorageFailure.

Inductive Outcome (A : Type) :=
| Resolved (a : A)
| Rejected (e : FeedError).

Arguments Resolved {A} a.
Arguments Rejected {A} e.

Definition Async (A : Type) : Type := Store -> Outcome A * Store.

Definition resolve {A} (a : A) : Async A := fun s => (Resolved a, s).

Definition bind {A B} (m : Async A) (k : A -> Async B) : Async B :=
  fun s =>
    match m s with
    | (Resolved a, s') => k a s'
    | (Rejected e, s') => (Rejected e, s')
    end.

Notation "'let!' x ':=' m 'in' k" := (bind m (fun x => k))
  (at level 10, x name, m at level 100, k at level 200).

Notation "m '>>' k" := (bind m (fun _ => k))
  (at level 61, left associativity, only parsing).

Definition readPosts : Async (list Post.t) :=
  fun s => (Resolved (_stubPosts s), s).

Definition writePosts (ps : list Post.t) : Async unit :=
  fun s => (Resolved tt, mkStore ps (_stubComments s)).

Definition readComments : Async (gmap string (list Comment.t)) :=
  fun s => (Resolved (_stubComments s), s).

Definition writeComments (cs : gmap string (list Comment.t)) : Async unit :=
  fun s => (Resolved tt, mkStore (_stubPosts s) cs).

(** The store an asynchronous function leaves, and the value it resolves
    with. *)
Definition exec {A} (m : Async A) (s : Store) : Store := snd (m s).

Definition outcome {A} (m : Async A) (s : Store) : Outcome A := fst (m s).

(** ** [Array.prototype.sort] with a comparator

    The sort is stable, and with a consistent comparator (here always a
    difference of two integers) its result is determined: the stably
    sorted permutation of the array. A stable insertion sort computes it:
    [x] moves behind [y] only when [cmp x y > 0]. *)

Fixpoint js_insert {A} (cmp : A -> A -> Z) (x : A) (l : list A) : list A :=
  match l with
  | [] => [x]
  | y :: l' => if decide (0 < cmp x y) then y :: js_insert cmp x l' else x :: l
  end.

Definition js_sort {A} (cmp : A -> A -> Z) (l : list A) : list A :=
  foldr (js_insert cmp) [] l.

(** ** [String.prototype.trim] on the ASCII white space and line
    terminators (TAB, LF, VT, FF, CR, SP). *)

Definition is_js_space (c : Ascii.ascii) : bool :=
  let n := Ascii.nat_of_ascii c in
  bool_decide (n = 9 \/ n = 10 \/ n = 11 \/ n = 12 \/ n = 13 \/ n = 32)%nat.

Fixpoint trimStart (s : string) : string :=
  match s with
  | EmptyString => EmptyString
  | String c r => if is_js_space c then trimStart r else s
  end.

Definition trim (s : string) : string :=
  String.rev (trimStart (String.rev (trimStart s))).

(** A string that does not start with white space. *)
Definition headOk (s : string) : Prop :=
  match s with
  | EmptyString => True
  | String c _ => is_js_space c = false
  end.

(** ** The stub layer *)

(** [(p) => p.id === postId], the argument of [_stubPosts.find]. *)
Definition findPost (postId : string) (ps : list Post.t) : option (nat * Post.t) :=
  list_find (fun p => Post.id p = postId) ps.

Definition fetchPosts : Async (list Post.t) :=
  let! posts := readPosts in
  resolve (js_sort (fun a b => Post.createdAt b - Post.createdAt a) posts).

Definition createPost (now : Z) (post : PostDraft.t) : Async string :=
  let id := "post_" +:+ pretty now in
  let! posts := readPosts in
  writePosts (PostDraft.withId id post :: posts) >>
  resolve id.

Definition uploadMedia (_uri : string) (_type : MediaType) : Async string :=
  resolve _uri.

Definition other (reaction : Reaction) : Reaction :=
  match reaction with like => dislike | dislike => like end.

(** The body of [toggleReaction] once the post is found: the assignments
    to the fields of [post], in order. *)
Definition react (userId : string) (reaction : Reaction) (post : Post.t) : Post.t :=
  if bool_decide (userId ∈ Post.getBy reaction post) then
    let post :=
      Post.setBy reaction
        (filter (fun id => id ≠ userId) (Post.getBy reaction post)) post in
    Post.setCount reaction (0 `max` (Post.getCount reaction post - 1)) post
  else
    let post :=
      Post.setBy reaction (Post.getBy reaction post ++ [userId]) post in
    let post :=
      Post.setCount reaction (Post.getCount reaction post + 1) post in
    if bool_decide (userId ∈ Post.getBy (other reaction) post) then
      let post :=
        Post.setBy (other reaction)
          (filter (fun id => id ≠ userId) (Post.getBy (other reaction) post))
          post in
      Post.setCount (other reaction)
        (0 `max` (Post.getCount (other reaction) post - 1)) post
    else post.

Definition toggleReaction (postId userId : string) (reaction : Reaction) : Async unit :=
  let! posts := readPosts in
  match findPost postId posts with
  | None => resolve tt
  | Some (i, post) => writePosts (<[i := react userId reaction post]> posts)
  end.

Definition byCreatedAt (a b : Comment.t) : Z :=
  Comment.createdAt a - Comment.createdAt b.

(** [sort] works in place: when the post has an array of comments, that
    array is reordered in the store and is the array returned. *)
Definition fetchComments (postId : string) : Async (list Comment.t) :=
  let! comments := readComments in
  match comments !! postId with
  | Some arr =>
      let sorted := js_sort byCreatedAt arr in
      writeComments (<[postId := sorted]> comments) >>
      resolve sorted
  | None => resolve (js_sort byCreatedAt [])
  end.

Definition addComment (now : Z) (postId : string) (comment : CommentDraft.t) : Async unit :=
  let id := "cmt_" +:+ pretty now in
  let! comments := readComments in
  let arr := default [] (comments !! postId) ++ [CommentDraft.withId id comment] in
  writeComments (<[postId := arr]> comments) >>
  let! posts := readPosts in
  match findPost postId posts with
  | Some (i, post) =>
      writePosts (<[i := Post.setCommentCount (Z.of_nat (length arr)) post]> posts)
  | None => resolve tt
  end.

(** ** The handlers of the screen

    The only callers of the stub layer. Each reads the clock where the
    source does; [submit] and [send] read it twice, once for [createdAt]
    and once, inside the callee, for the id. *)

(** [CreatePostModal.submit]; [onCreated] is [loadPosts]. *)
Definition submit (createdAt now : Z) (currentUserId currentUserName : string)
    (title desc : string) (media : option (string * MediaType)) : Async unit :=
  if decide (trim title = "") then resolve tt
  else
    let! mediaUrl :=
      match media with
      | Some (uri, ty) => let! url := uploadMedia uri ty in resolve (Some url)
      | None => resolve None
      end in
    let mediaType := snd <$> media in
    createPost now
      (PostDraft.mk currentUserId currentUserName (trim title) (trim desc)
         mediaUrl mediaType 0 0 [] [] 0 createdAt) >>
    fetchPosts >>
    resolve tt.

(** [CommentSheet.send]; [load] is [fetchComments]. *)
Definition send (createdAt now : Z) (postId currentUserId currentUserName : string)
    (text : string) : Async unit :=
  if decide (trim text = "") then resolve tt
  else
    addComment now postId
      (CommentDraft.mk currentUserId currentUserName (trim text) createdAt) >>
    fetchComments postId >>
    resolve tt.

(** [CommunityScreen.handleReact] *)
Definition handleReact (postId currentUserId : string) (reaction : Reaction) : Async unit :=
  toggleReaction postId currentUserId reaction >>
  fetchPosts >>
  resolve tt.

(** ** Sequences of operations *)

Inductive Op :=
| OpCreatePost (now : Z) (post : PostDraft.t)
| OpToggleReaction (postId userId : string) (reaction : Reaction)
| OpAddComment (now : Z) (postId : string) (comment : CommentDraft.t).

Definition step (op : Op) (s : Store) : Store :=
  match op with
  | OpCreatePost now post => exec (createPost now post) s
  | OpToggleReaction postId userId reaction =>
      exec (toggleReaction postId userId reaction) s
  | OpAddComment now postId comment => exec (addComment now postId comment) s
  end.

Definition run (ops : list Op) (s : Store) : Store :=
  foldl (fun s op => step op s) s ops.

(** A sequence of [toggleReaction] calls only. *)
Definition runToggles (calls : list (string * string * Reaction)) (s : Store) : Store :=
  run ((fun c => OpToggleReaction c.1.1 c.1.2 c.2) <$> calls) s.

(** ** The predicates of the data model *)

(** [likedBy] and [dislikedBy] are arrays used as sets: the number of
    elements of the set is the number of distinct user ids. *)
Definition card (l : list string) : Z :=
  Z.of_nat (size (list_to_set (C := gset string) l)).

Definition countsMatch (p : Post.t) : Prop :=
  Post.likeCount p = card (Post.likedBy p) /\
  Post.dislikeCount p = card (Post.dislikedBy p).

Definition exclusive (u : string) (p : Post.t) : Prop :=
  ~ (u ∈ Post.likedBy p /\ u ∈ Post.dislikedBy p).

(** The draft [submit] builds: counters at zero and empty sets. *)
Definition zeroInitialized (d : PostDraft.t) : Prop :=
  PostDraft.likeCount d = 0 /\ PostDraft.dislikeCount d = 0 /\
  PostDraft.likedBy d = [] /\ PostDraft.dislikedBy d = [] /\
  PostDraft.commentCount d = 0.

(** [getPost]: the post a post id denotes, as [_stubPosts.find] has it. *)
Definition getPost (postId : string) (s : Store) : option Post.t :=
  snd <$> findPost postId (_stubPosts s).

(** The comments stored for a post id. *)
Definition commentsOf (postId : string) (s : Store) : list Comment.t :=
  default [] (_stubComments s !! postId).

(** What [fetchComments] resolves with. *)
Definition listComments (postId : string) (s : Store) : list Comment.t :=
  match outcome (fetchComments postId) s with
  | Resolved cs => cs
  | Rejected _ => []
  end.

(** What [fetchPosts] resolves with. *)
Definition listPosts (s : Store) : list Post.t :=
  match outcome fetchPosts s with
  | Resolved ps => ps
  | Rejected _ => []
  end.

(** The names an object literal inherits from [Object.prototype]: the
    properties of the language and its four legacy accessors. *)
Definition inheritedNames : list string :=
  ["constructor"; "hasOwnProperty"; "isPrototypeOf"; "propertyIsEnumerable";
   "toLocaleString"; "toString"; "valueOf"; "__proto__";
   "__defineGetter__"; "__defineSetter__"; "__lookupGetter__";
   "__lookupSetter__"].

(** A post id for which [_stubComments[postId]] is an array or
    [undefined], never something inherited. *)
Definition plainId (postId : string) : Prop := postId ∉ inheritedNames.

(** ** Ids, frames and invariants used by the statements *)

(** [`post_${Date.now()}`] and [`cmt_${Date.now()}`] *)
Definition postIdAt (now : Z) : string := "post_" +:+ pretty now.

Definition commentIdAt (now : Z) : string := "cmt_" +:+ pretty now.

(** The array [_stubComments[postId]] after the [push]. *)
Definition pushed (now : Z) (postId : string) (c : CommentDraft.t) (s : Store)
  : list Comment.t :=
  commentsOf postId s ++ [CommentDraft.withId (commentIdAt now) c].

(** A comparator of the source that is a difference of integer keys:
    [(a, b) => b.key - a.key]. *)
Definition down {A} (key : A -> Z) (a b : A) : Z := key b - key a.

(** The fields [react] never assigns. *)
Definition sameFrame (p p' : Post.t) : Prop :=
  Post.id p' = Post.id p /\
  Post.authorId p' = Post.authorId p /\
  Post.authorName p' = Post.authorName p /\
  Post.title p' = Post.title p /\
  Post.description p' = Post.description p /\
  Post.mediaUrl p' = Post.mediaUrl p /\
  Post.mediaType p' = Post.mediaType p /\
  Post.commentCount p' = Post.commentCount p /\
  Post.createdAt p' = Post.createdAt p.

(** The reaction state of a post as it concerns user [u]: membership of
    [u] in the two sets, and the two counters. *)
Definition restoredFor (u : string) (p p' : Post.t) : Prop :=
  (u ∈ Post.likedBy p' <-> u ∈ Post.likedBy p) /\
  (u ∈ Post.dislikedBy p' <-> u ∈ Post.dislikedBy p) /\
  Post.likeCount p' = Post.likeCount p /\
  Post.dislikeCount p' = Post.dislikeCount p.

(** [toggleReaction] called twice in immediate succession. *)
Definition toggledTwice (postId userId : string) (reaction : Reaction) (s : Store) : Store :=
  exec (toggleReaction postId userId reaction)
    (exec (toggleReaction postId userId reaction) s).

Definition zeroInitializedOp (op : Op) : Prop :=
  match op with
  | OpCreatePost _ post => zeroInitialized post
  | _ => True
  end.

(** Post ids are pairwise distinct, and each [commentCount] is the length
    of the array of comments kept under the id of the post. *)
Definition storeInv (s : Store) : Prop :=
  NoDup (Post.id <$> _stubPosts s) /\
  forall p, p ∈ _stubPosts s ->
    Post.commentCount p = Z.of_nat (length (commentsOf (Post.id p) s)).

(** [createPost] is given a zero-initialized draft and mints an id that is
    new to the store: no stored post has it, and no comments are kept
    under it. The other operations are unrestricted. *)
Definition admissibleOp (s : Store) (op : Op) : Prop :=
  match op with
  | OpCreatePost now post =>
      zeroInitialized post /\
      (forall p, p ∈ _stubPosts s -> Post.id p ≠ postIdAt now) /\
      commentsOf (postIdAt now) s = []
  | _ => True
  end.

(** Every operation of the sequence is admissible in the store it is run
    in. *)
Fixpoint admissible (ops : list Op) (s : Store) : Prop :=
  match ops with
  | [] => True
  | op :: ops' => admissibleOp s op /\ admissible ops' (step op s)
  end.

(** ** What the user can do on the screen

    The stub layer is private to the module: the store changes only
    through [submit], [send] and [handleReact]. *)

Inductive Event :=
| EvSubmit (createdAt now : Z) (userId userName title desc : string)
    (media : option (string * MediaType))
| EvSend (createdAt now : Z) (postId userId userName text : string)
| EvReact (postId userId : string) (reaction : Reaction).

Definition handle (ev : Event) (s : Store) : Store :=
  match ev with
  | EvSubmit createdAt now userId userName title desc media =>
      exec (submit createdAt now userId userName title desc media) s
  | EvSend createdAt now postId userId userName text =>
      exec (send createdAt now postId userId userName text) s
  | EvReact postId userId reaction =>
      exec (handleReact postId userId reaction) s
  end.

Definition runEvents (evs : list Event) (s : Store) : Store :=
  foldl (fun s ev => handle ev s) s evs.

(** The same invariant read on the arrays themselves: no repetition, and
    each counter is the length of its array. *)
Definition lengthsMatch (p : Post.t) : Prop :=
  NoDup (Post.likedBy p) /\ NoDup (Post.dislikedBy p) /\
  Post.likeCount p = Z.of_nat (length (Post.likedBy p)) /\
  Post.dislikeCount p = Z.of_nat (length (Post.dislikedBy p)).

Definition wellFormed (p : Post.t) : Prop :=
  lengthsMatch p /\ forall u, exclusive u p.

(** ** Drafts and stores of the scenarios *)

Definition rainAdvice : PostDraft.t :=
  PostDraft.mk "u1" "U1" "Rain advice" "" None None 0 0 [] [] 0 1000.

Definition draftAt (createdAt : Z) : PostDraft.t :=
  PostDraft.mk "u1" "U1" "Rain advice" "" None None 0 0 [] [] 0 createdAt.

Definition niceTip : CommentDraft.t :=
  CommentDraft.mk "u3" "U3" "Nice tip" 1003.

Definition blankComment : CommentDraft.t :=
  CommentDraft.mk "u3" "U3" "   " 1005.

(** The store after [createPost] of the "Rain advice" draft at clock 1000. *)
Definition rainStore : Store := step (OpCreatePost 1000 rainAdvice) initialStore.

Definition rainPost : Post.t := PostDraft.withId "post_1000" rainAdvice.

(** The store in which "u2" dislikes the "Rain advice" post. *)
Definition dislikedStore : Store :=
  step (OpToggleReaction "post_1000" "u2" dislike) rainStore.

(** A draft that lists "u2" in [dislikedBy] with [dislikeCount] at 0, and
    the store after [createPost] of it at clock 1000. *)
Definition uncounted : PostDraft.t :=
  PostDraft.mk "u1" "U1" "Rain advice" "" None None 0 0 [] ["u2"] 0 1000.

Definition uncountedStore : Store :=
  step (OpCreatePost 1000 uncounted) initialStore.

Definition thanks : CommentDraft.t :=
  CommentDraft.mk "u1" "U1" "Thanks" 1003.

(** The store after two [addComment] calls on the "Rain advice" post that
    both read the clock at 1004. *)
Definition sameClockStore : Store :=
  run [OpAddComment 1004 "post_1000" niceTip;
       OpAddComment 1004 "post_1000" thanks] rainStore.

(** The store after two [createPost] calls that both read the clock at 1000. *)
Definition collidedStore : Store :=
  exec (createPost 1000 (draftAt 1000))
    (exec (createPost 1000 rainAdvice) initialStore).

(** ** Definitions for the further properties *)

(** The clock readings of the [createPost] calls of a sequence, in the
    order of the calls. *)
Definition createClocks (ops : list Op) : list Z :=
  omap (fun op => match op with OpCreatePost now _ => Some now | _ => None end)
    ops.

(** The fields of a post that no function assigns after its creation:
    all but the reaction arrays and the three counters. *)
Definition sameContent (p p' : Post.t) : Prop :=
  Post.id p' = Post.id p /\
  Post.authorId p' = Post.authorId p /\
  Post.authorName p' = Post.authorName p /\
  Post.title p' = Post.title p /\
  Post.description p' = Post.description p /\
  Post.mediaUrl p' = Post.mediaUrl p /\
  Post.mediaType p' = Post.mediaType p /\
  Post.createdAt p' = Post.createdAt p.

(** The post [submit] stores. *)
Definition submitted (createdAt now : Z) (userId userName title desc : string)
    (media : option (string * MediaType)) : Post.t :=
  Post.mk (postIdAt now) userId userName (trim title) (trim desc)
    (fst <$> media) (snd <$> media) 0 0 [] [] 0 createdAt.

(** The "Rain advice" post with two comments, added at clocks 1004 and
    1006. *)
Definition commentedStore : Store :=
  run [OpCreatePost 1000 rainAdvice; OpAddComment 1004 "post_1000" niceTip;
       OpAddComment 1006 "post_1000" blankComment] initialStore.

(** What the screen guarantees when the clock does not repeat: a post is
    submitted under an id no stored post has, and a comment is sent for a
    post that is in the store (the comment sheet opens on a post of the
    feed). *)
Definition screenOk (s : Store) (ev : Event) : Prop :=
  match ev with
  | EvSubmit _ now _ _ title _ _ =>
      trim title = "" \/ forall p, p ∈ _stubPosts s -> Post.id p ≠ postIdAt now
  | EvSend _ _ postId _ _ text =>
      trim text = "" \/ exists p, getPost postId s = Some p
  | EvReact _ _ _ => True
  end.

Fixpoint screenRunOk (evs : list Event) (s : Store) : Prop :=
  match evs with
  | [] => True
  | ev :: evs' => screenOk s ev /\ screenRunOk evs' (handle ev s)
  end.

(** Comments are kept only under ids of stored posts. *)
Definition commentsCovered (s : Store) : Prop :=
  forall postId, commentsOf postId s ≠ [] -> postId ∈ (Post.id <$> _stubPosts s).

(** The "Rain advice" post is submitted, liked and commented on the
    screen, then a second post is submitted. *)
Definition screenEvents : list Event :=
  [EvSubmit 1000 1000 "u1" "U1" "Rain advice" "" None;
   EvReact "post_1000" "u2" like;
   EvSend 1003 1004 "post_1000" "u3" "U3" " Nice tip ";
   EvSubmit 1005 1005 "u2" "U2" "Seeds" "Which ones?" None;
   EvSend 1006 1007 "post_1000" "u1" "U1" "Thanks"].

(** ** Helpers of the screens

    Strings are read as sequences of ASCII characters: [length] is the
    number of characters, [toUpperCase] maps [a]..[z] to [A]..[Z], and
    [w[0]] is the first character. *)

(** [timeAgo(ms)], with the reading of [Date.now()] as an argument.
    [Math.floor] of the quotient of two integers is the floor division. *)
Definition timeAgo (now ms : Z) : string :=
  let diff := now - ms in
  let m := diff `div` 60000 in
  if decide (m < 1) then "just now"
  else if decide (m < 60) then pretty m +:+ "m ago"
  else
    let h := m `div` 60 in
    if decide (h < 24) then pretty h +:+ "h ago"
    else
      let d := h `div` 24 in
      pretty d +:+ "d ago".

(** [name.split(" ")]: the pieces between the spaces; never an empty
    array, and an empty piece wherever two separators meet or the string
    starts or ends with one. *)
Fixpoint splitSpaces (s : string) : list string :=
  match s with
  | EmptyString => [EmptyString]
  | String c r =>
      if decide (c = Ascii.Space) then EmptyString :: splitSpaces r
      else
        match splitSpaces r with
        | w :: ws => String c w :: ws
        | [] => [String c EmptyString]
        end
  end.

(** [w[0] || ""] *)
Definition firstChar (w : string) : string :=
  match w with
  | EmptyString => EmptyString
  | String c _ => String c EmptyString
  end.

(** [join("")] *)
Definition joinAll (ws : list string) : string :=
  foldr String.append EmptyString ws.

Definition upperChar (c : Ascii.ascii) : Ascii.ascii :=
  let n := Ascii.nat_of_ascii c in
  if decide (97 <= n <= 122)%nat then Ascii.ascii_of_nat (n - 32) else c.

Fixpoint toUpperCase (s : string) : string :=
  match s with
  | EmptyString => EmptyString
  | String c r => String (upperChar c) (toUpperCase r)
  end.

(** [initials(name)] of the community screen. *)
Definition initials (name : string) : string :=
  let letters :=
    toUpperCase (joinAll (take 2 (firstChar <$> splitSpaces name))) in
  if decide (letters = "") then "?" else letters.


Definition asciiChar (c : Ascii.ascii) : Prop :=
  (Ascii.nat_of_ascii c < 128)%nat.

Fixpoint asciiOnly (s : string) : Prop :=
  match s with
  | EmptyString => True
  | String c r => asciiChar c /\ asciiOnly r
  end.

Fixpoint allSpaces (s : string) : Prop :=
  match s with
  | EmptyString => True
  | String c r => c = Ascii.Space /\ allSpaces r
  end.

Module Strength.

Record t := mk { label : string; color : string; fraction : Q }.

End Strength.

(** [getStrength(pwd)] of the sign-up screen. *)
Definition getStrength (pwd : string) : Strength.t :=
  if decide (String.length pwd = 0%nat) then Strength.mk "" "#E0E0E0" 0
  else if decide (String.length pwd < 6)%nat
       then Strength.mk "Weak" "#E57373" (33 # 100)
  else if decide (String.length pwd < 10)%nat
       then Strength.mk "Fair" "#FFB74D" (66 # 100)
  else Strength.mk "Strong" "#4CAF50" 1.

(** ** Sign-in, sign-up and the session ([loginpg.tsx], [signuppg.tsx],
    [_layout.tsx], [profile.tsx])

    What is outside the repository is an input: a Firestore call is a
    function giving what the call resolved with or the value it threw.
    [AsyncStorage] is read at the two keys the screens share,
    ["userLoggedIn"] and ["userData"]; the JSON text kept under
    ["userData"] is the object it encodes. The writes of the sign-in and
    of the sign-up, which run inside a [try], may be refused: [setItem]
    is a function giving, for a key, the value the write throws, if any.
    The reads, and the calls of [handleSkip] and [doLogout], are followed
    where they succeed. An alert is its title and its message, on the web
    as on a device; the flags that only drive the display ([loading], the
    keyboard) are left out. *)

(** [a || d] for a string that may be missing: [undefined] and the empty
    string are falsy. *)
Definition orElse (a : option string) (d : string) : string :=
  match a with
  | Some s => if decide (s = "") then d else s
  | None => d
  end.

Definition lowerChar (c : Ascii.ascii) : Ascii.ascii :=
  let n := Ascii.nat_of_ascii c in
  if decide (65 <= n <= 90)%nat then Ascii.ascii_of_nat (n + 32) else c.

Fixpoint toLowerCase (s : string) : string :=
  match s with
  | EmptyString => EmptyString
  | String c r => String (lowerChar c) (toLowerCase r)
  end.

(** The fields of a document of the [users] collection that the screens
    read or write. *)
Module UserDoc.

Record t := mk {
  name : option string;
  email : option string;
  password : option string;
  provider : option string
}.

End UserDoc.

(** The object kept under ["userData"]. *)
Module UserData.

Record t := mk {
  uid : option string;
  name : option string;
  email : option string;
  provider : option string
}.

End UserData.

Record Storage := mkStorage {
  userLoggedIn : option string;
  userData : option UserData.t
}.

(** A thrown value, as the handlers look at it: [e?.code] and
    [e?.message]. *)
Module Thrown.

Record t := mk { code : option string; message : option string }.

End Thrown.

Inductive UiEffect :=
| ShowAlert (title message : string)
| RouterReplace (path : string).

(** [getDocs(query(collection(db, "users"), where("email", "==", e)))]:
    the documents of the snapshot with their ids, or the value thrown. *)
Definition GetDocs : Type := string -> Thrown.t + list (string * UserDoc.t).

(** [addDoc(collection(db, "users"), doc)]: the id of the new document,
    or the value thrown. *)
Definition AddDoc : Type := UserDoc.t -> Thrown.t + string.

(** [AsyncStorage.setItem(key, value)]: [None] when the write goes
    through, the value thrown when it does not. *)
Definition SetItem : Type := string -> option Thrown.t.

(** [await AsyncStorage.setItem("userLoggedIn", value)]: what was thrown,
    if anything, and the storage left. *)
Definition setUserLoggedIn (setItem : SetItem) (value : string) (st : Storage)
  : option Thrown.t * Storage :=
  match setItem "userLoggedIn" with
  | Some e => (Some e, st)
  | None => (None, mkStorage (Some value) (userData st))
  end.

(** [await AsyncStorage.setItem("userData", JSON.stringify(value))] *)
Definition setUserData (setItem : SetItem) (value : UserData.t) (st : Storage)
  : option Thrown.t * Storage :=
  match setItem "userData" with
  | Some e => (Some e, st)
  | None => (None, mkStorage (userLoggedIn st) (Some value))
  end.

Definition persistLogin (setItem : SetItem) (uid name email provider : string)
    (st : Storage) : option Thrown.t * Storage :=
  match setUserLoggedIn setItem "true" st with
  | (Some e, st) => (Some e, st)
  | (None, st) =>
      setUserData setItem
        (UserData.mk (Some uid) (Some name) (Some email) (Some provider)) st
  end.

Definition emailLogin (getDocs : GetDocs) (setItem : SetItem)
    (email password : string) (st : Storage) : option Thrown.t * Storage :=
  match getDocs (toLowerCase (trim email)) with
  | inl e => (Some e, st)
  | inr [] => (Some (Thrown.mk (Some "NO_ACCOUNT") None), st)
  | inr ((id, userData) :: _) =>
      if decide (UserDoc.password userData = Some password) then
        persistLogin setItem id
          (orElse (UserDoc.name userData) "")
          (orElse (UserDoc.email userData) email)
          (orElse (UserDoc.provider userData) "email") st
      else (Some (Thrown.mk (Some "WRONG_PASSWORD") None), st)
  end.

Definition handleLogin (getDocs : GetDocs) (setItem : SetItem)
    (email password : string) (st : Storage) : list UiEffect * Storage :=
  if decide (trim email = "") then
    ([ShowAlert "Missing Email" "Please enter your email address."], st)
  else if decide (password = "") then
    ([ShowAlert "Missing Password" "Please enter your password."], st)
  else
    match emailLogin getDocs setItem email password st with
    | (None, st') => ([RouterReplace "/"], st')
    | (Some e, st') =>
        if decide (Thrown.code e = Some "NO_ACCOUNT") then
          ([ShowAlert "No Account Found"
              "No account registered with that email. Please sign up first."],
           st')
        else if decide (Thrown.code e = Some "WRONG_PASSWORD") then
          ([ShowAlert "Wrong Password"
              "The password you entered is incorrect. Please try again."],
           st')
        else
          ([ShowAlert "Login Failed"
              (orElse (Thrown.message e)
                 "Something went wrong. Please try again.")],
           st')
    end.


Definition registerUser (getDocs : GetDocs) (addDoc : AddDoc)
    (name email password : string) : Thrown.t + string :=
  let normalizedEmail := toLowerCase (trim email) in
  match getDocs normalizedEmail with
  | inl e => inl e
  | inr (_ :: _) => inl (Thrown.mk (Some "EMAIL_EXISTS") None)
  | inr [] =>
      addDoc (UserDoc.mk (Some (trim name)) (Some normalizedEmail)
                (Some password) (Some "email"))
  end.

(** What the [catch] of [handleSignup] shows for a thrown value. *)
Definition signupAlert (e : Thrown.t) : UiEffect :=
  if decide (Thrown.code e = Some "EMAIL_EXISTS") then
    ShowAlert "Account Already Exists"
      "An account with this email already exists. Please login instead."
  else
    ShowAlert "Signup Failed"
      (orElse (Thrown.message e) "Something went wrong. Please try again.").

Definition handleSignup (getDocs : GetDocs) (addDoc : AddDoc) (setItem : SetItem)
    (name email password : string) (st : Storage) : list UiEffect * Storage :=
  if decide (trim name = "") then
    ([ShowAlert "Missing Name" "Please enter your full name."], st)
  else if decide (trim email = "") then
    ([ShowAlert "Missing Email" "Please enter your email address."], st)
  else if decide (password = "") then
    ([ShowAlert "Missing Password" "Please create a password."], st)
  else if decide (String.length password < 6)%nat then
    ([ShowAlert "Weak Password" "Password must be at least 6 characters."], st)
  else
    match registerUser getDocs addDoc name email password with
    | inr userId =>
        match setUserLoggedIn setItem "true" st with
        | (Some e, st) => ([signupAlert e], st)
        | (None, st) =>
            match
              setUserData setItem
                (UserData.mk (Some userId) (Some (trim name))
                   (Some (toLowerCase (trim email))) (Some "email")) st
            with
            | (Some e, st) => ([signupAlert e], st)
            | (None, st) => ([RouterReplace "/"], st)
            end
        end
    | inl e => ([signupAlert e], st)
    end.









(** A [users] collection with one account, and one that cannot be
    reached. *)
Definition oneAccount : GetDocs :=
  fun e =>
    if decide (e = "ravi@farm.in") then
      inr [("uid1", UserDoc.mk (Some "Ravi") (Some "ravi@farm.in")
                      (Some "monsoon") (Some "email"))]
    else inr [].

Definition freshIds : AddDoc := fun _ => inr "uid2".

(** An [AsyncStorage] that takes every write, and one that is full once
    ["userLoggedIn"] is written. *)
Definition allWrites : SetItem := fun _ => None.

Definition fullAfterFirst : SetItem :=
  fun key =>
    if decide (key = "userData")
    then Some (Thrown.mk None (Some "database or disk is full"))
    else None.

(** ** Scenarios of the specification, run on the model *)

Example scenario_create :
  outcome (createPost 1000 rainAdvice) initialStore = Resolved "post_1000" /\
  Post.likeCount <$> getPost "post_1000" (step (OpCreatePost 1000 rainAdvice) initialStore)
    = Some 0.
Proof. split; reflexivity. Qed.

Example scenario_like_then_dislike :
  let s1 := run [OpCreatePost 1000 rainAdvice;
                 OpToggleReaction "post_1000" "u2" like] initialStore in
  let s2 := step (OpToggleReaction "post_1000" "u2" dislike) s1 in
  (fun p => (Post.likeCount p, Post.likedBy p)) <$> getPost "post_1000" s1
    = Some (1, ["u2"]) /\
  (fun p => (Post.likeCount p, Post.dislikeCount p, Post.likedBy p, Post.dislikedBy p))
    <$> getPost "post_1000" s2 = Some (0, 1, [], ["u2"]).
Proof. split; vm_compute; reflexivity. Qed.

Example scenario_comment :
  let s := run [OpCreatePost 1000 rainAdvice;
                OpAddComment 1004 "post_1000" niceTip] initialStore in
  Post.commentCount <$> getPost "post_1000" s = Some 1 /\
  Comment.text <$> listComments "post_1000" s = ["Nice tip"].
Proof. split; vm_compute; reflexivity. Qed.

Example trim_blank : trim "   " = "" /\ trim "  Nice tip " = "Nice tip".
Proof. split; reflexivity. Qed.

(** ** Arrays as sets: cardinality under [filter] and the spread *)

Section card_facts.

Implicit Types (u v : string) (l : list string).

Lemma set_of_snoc u l :
  list_to_set (C := gset string) (l ++ [u]) = list_to_set l ∪ {[u]}.
Proof. rewrite list_to_set_app_L. simpl. set_solver. Qed.

Lemma set_of_remove u l :
  list_to_set (C := gset string) (filter (fun id => id ≠ u) l)
  = list_to_set l ∖ {[u]}.
Proof.
  apply set_eq. intros v.
  rewrite elem_of_difference, !elem_of_list_to_set, list_elem_of_filter.
  set_solver.
Qed.

Lemma card_nonneg l : 0 <= card l.
Proof. unfold card. lia. Qed.

Lemma card_snoc u l : u ∉ l -> card (l ++ [u]) = card l + 1.
Proof.
  intros Hu. unfold card. rewrite set_of_snoc, size_union.
  - rewrite size_singleton. lia.
  - intros v Hv Hv'. apply elem_of_list_to_set in Hv. set_solver.
Qed.

Lemma card_remove u l :
  u ∈ l -> card (filter (fun id => id ≠ u) l) = card l - 1.
Proof.
  intros Hu. unfold card. rewrite set_of_remove, size_difference.
  - rewrite size_singleton.
    assert (size (list_to_set (C := gset string) l) ≠ 0%nat).
    { intros H0. apply size_empty_inv in H0.
      apply (elem_of_list_to_set (C := gset string)) in Hu. set_solver. }
    lia.
  - intros v Hv. apply elem_of_singleton in Hv as ->.
    by apply elem_of_list_to_set.
Qed.

Lemma card_member_pos u l : u ∈ l -> 1 <= card l.
Proof.
  intros Hu. pose proof (card_remove u l Hu).
  pose proof (card_nonneg (filter (fun id => id ≠ u) l)). lia.
Qed.

Lemma card_NoDup l : NoDup l -> card l = Z.of_nat (length l).
Proof. intros Hl. unfold card. by rewrite size_list_to_set. Qed.

End card_facts.

(** ** [react]: what one toggle does to the post it finds *)

Section react_facts.

Implicit Types (u v : string) (r : Reaction) (p : Post.t).

(** Case analysis following the two tests of the source. *)
Lemma react_cases u r p :
  (u ∈ Post.getBy r p /\
   Post.getBy r (react u r p) = filter (fun id => id ≠ u) (Post.getBy r p) /\
   Post.getCount r (react u r p) = 0 `max` (Post.getCount r p - 1) /\
   Post.getBy (other r) (react u r p) = Post.getBy (other r) p /\
   Post.getCount (other r) (react u r p) = Post.getCount (other r) p)
  \/
  ((u ∉ Post.getBy r p) /\ u ∈ Post.getBy (other r) p /\
   Post.getBy r (react u r p) = Post.getBy r p ++ [u] /\
   Post.getCount r (react u r p) = Post.getCount r p + 1 /\
   Post.getBy (other r) (react u r p)
     = filter (fun id => id ≠ u) (Post.getBy (other r) p) /\
   Post.getCount (other r) (react u r p)
     = 0 `max` (Post.getCount (other r) p - 1))
  \/
  ((u ∉ Post.getBy r p) /\ (u ∉ Post.getBy (other r) p) /\
   Post.getBy r (react u r p) = Post.getBy r p ++ [u] /\
   Post.getCount r (react u r p) = Post.getCount r p + 1 /\
   Post.getBy (other r) (react u r p) = Post.getBy (other r) p /\
   Post.getCount (other r) (react u r p) = Post.getCount (other r) p).
Proof.
  unfold react. destruct r; simpl.
  - destruct (bool_decide_reflect (u ∈ Post.likedBy p)) as [Hin|Hin]; simpl.
    + left. done.
    + destruct (bool_decide_reflect (u ∈ Post.dislikedBy p)) as [Ho|Ho]; simpl.
      * right; left. done.
      * right; right. done.
  - destruct (bool_decide_reflect (u ∈ Post.dislikedBy p)) as [Hin|Hin]; simpl.
    + left. done.
    + destruct (bool_decide_reflect (u ∈ Post.likedBy p)) as [Ho|Ho]; simpl.
      * right; left. done.
      * right; right. done.
Qed.

Lemma sameFrame_refl p : sameFrame p p.
Proof. repeat split. Qed.

Lemma react_sameFrame u r p : sameFrame p (react u r p).
Proof.
  unfold react, sameFrame.
  destruct r; simpl; repeat case_bool_decide; simpl; repeat split.
Qed.

Lemma react_id u r p : Post.id (react u r p) = Post.id p.
Proof. apply react_sameFrame. Qed.

(** Membership of any user in either set after a toggle by [u]. *)
Lemma react_member_target u r p v :
  v ∈ Post.getBy r (react u r p) <->
  (v ≠ u /\ v ∈ Post.getBy r p) \/ (v = u /\ u ∉ Post.getBy r p).
Proof.
  destruct (react_cases u r p)
    as [(Hin & -> & _)|[(Hin & _ & -> & _)|(Hin & _ & -> & _)]].
  - rewrite list_elem_of_filter. naive_solver.
  - rewrite elem_of_app, list_elem_of_singleton.
    destruct (decide (v = u)); naive_solver.
  - rewrite elem_of_app, list_elem_of_singleton.
    destruct (decide (v = u)); naive_solver.
Qed.

Lemma react_member_other u r p v :
  v ∈ Post.getBy (other r) (react u r p) <->
  v ∈ Post.getBy (other r) p /\ (v = u -> u ∈ Post.getBy r p).
Proof.
  destruct (react_cases u r p)
    as [(Hin & _ & _ & -> & _)|[(Hin & Ho & _ & _ & -> & _)|(Hin & Ho & _ & _ & -> & _)]].
  - naive_solver.
  - rewrite list_elem_of_filter. naive_solver.
  - naive_solver.
Qed.

Lemma exclusive_by v r p :
  exclusive v p <-> ~ (v ∈ Post.getBy r p /\ v ∈ Post.getBy (other r) p).
Proof. unfold exclusive. destruct r; simpl; tauto. Qed.

Lemma react_exclusive u r p v : exclusive v p -> exclusive v (react u r p).
Proof.
  rewrite !(exclusive_by v r).
  rewrite react_member_target, react_member_other. naive_solver.
Qed.

Lemma countsMatch_by r p :
  countsMatch p <->
  Post.getCount r p = card (Post.getBy r p) /\
  Post.getCount (other r) p = card (Post.getBy (other r) p).
Proof. unfold countsMatch. destruct r; simpl; tauto. Qed.

Lemma react_countsMatch u r p : countsMatch p -> countsMatch (react u r p).
Proof.
  rewrite !(countsMatch_by r). intros [Hc Ho].
  destruct (react_cases u r p)
    as [(Hin & -> & -> & -> & ->)
       |[(Hin & Hoin & -> & -> & -> & ->)|(Hin & Hoin & -> & -> & -> & ->)]].
  - rewrite card_remove by done. pose proof (card_member_pos _ _ Hin).
    split; [lia|done].
  - rewrite card_snoc, card_remove by done.
    pose proof (card_member_pos _ _ Hoin). split; lia.
  - rewrite card_snoc by done. split; [lia|done].
Qed.

End react_facts.

(** ** [toggleReaction] on the store *)

Section toggle_facts.

Implicit Types (s : Store) (u v postId : string) (r : Reaction) (p : Post.t).

Lemma exec_toggleReaction postId u r s :
  exec (toggleReaction postId u r) s =
  match findPost postId (_stubPosts s) with
  | None => s
  | Some (i, p) => mkStore (<[i := react u r p]> (_stubPosts s)) (_stubComments s)
  end.
Proof.
  unfold exec, toggleReaction, bind, readPosts; simpl.
  by destruct (findPost postId (_stubPosts s)) as [[i p]|].
Qed.

Lemma outcome_toggleReaction postId u r s :
  outcome (toggleReaction postId u r) s = Resolved tt.
Proof.
  unfold outcome, toggleReaction, bind, readPosts; simpl.
  by destruct (findPost postId (_stubPosts s)) as [[i p]|].
Qed.

Lemma findPost_Some postId (ps : list Post.t) i p :
  findPost postId ps = Some (i, p) ->
  ps !! i = Some p /\ Post.id p = postId.
Proof. unfold findPost. intros H. apply list_find_Some in H. tauto. Qed.

Lemma findPost_None postId (ps : list Post.t) :
  findPost postId ps = None <-> forall p, p ∈ ps -> Post.id p ≠ postId.
Proof. unfold findPost. rewrite list_find_None, Forall_forall. done. Qed.

Lemma toggleReaction_comments postId u r s :
  _stubComments (exec (toggleReaction postId u r) s) = _stubComments s.
Proof.
  rewrite exec_toggleReaction.
  by destruct (findPost postId (_stubPosts s)) as [[i p]|].
Qed.

(** Every slot of [_stubPosts] keeps its post, or holds the toggled post
    when it is the slot [find] returned. *)
Lemma toggleReaction_lookup postId u r s (j : nat) p :
  _stubPosts s !! j = Some p ->
  _stubPosts (exec (toggleReaction postId u r) s) !! j = Some p \/
  (Post.id p = postId /\
   _stubPosts (exec (toggleReaction postId u r) s) !! j = Some (react u r p)).
Proof.
  intros Hj. rewrite exec_toggleReaction.
  destruct (findPost postId (_stubPosts s)) as [[i q]|] eqn:Hfind; [|by left].
  apply findPost_Some in Hfind as [Hi Hid]. simpl.
  destruct (decide (i = j)) as [->|Hne].
  - right. rewrite Hi in Hj. injection Hj as ->. split; [done|].
    apply list_lookup_insert_eq. by eapply lookup_lt_Some.
  - left. by rewrite list_lookup_insert_ne.
Qed.

Lemma toggleReaction_length postId u r s :
  length (_stubPosts (exec (toggleReaction postId u r) s))
  = length (_stubPosts s).
Proof.
  rewrite exec_toggleReaction.
  destruct (findPost postId (_stubPosts s)) as [[i q]|]; [|done].
  simpl. apply length_insert.
Qed.

Lemma toggleReaction_getPost postId u r s p :
  getPost postId s = Some p ->
  getPost postId (exec (toggleReaction postId u r) s) = Some (react u r p).
Proof.
  unfold getPost. rewrite exec_toggleReaction.
  destruct (findPost postId (_stubPosts s)) as [[i q]|] eqn:Hfind; [|done].
  simpl. intros [= ->].
  unfold findPost in *. apply list_find_Some in Hfind as (Hi & Hid & Hbefore).
  assert (list_find (fun p0 => Post.id p0 = postId)
            (<[i := react u r p]> (_stubPosts s)) = Some (i, react u r p))
    as ->; [|done].
  apply list_find_Some. split_and!.
  - apply list_lookup_insert_eq. by eapply lookup_lt_Some.
  - by rewrite react_id.
  - intros j y Hj Hlt. rewrite list_lookup_insert_ne in Hj by lia. eauto.
Qed.

Lemma runToggles_nil s : runToggles [] s = s.
Proof. done. Qed.

Lemma runToggles_cons postId u r calls s :
  runToggles ((postId, u, r) :: calls) s
  = runToggles calls (exec (toggleReaction postId u r) s).
Proof. done. Qed.

(** A property of posts that [react] keeps is kept, slot by slot, by any
    sequence of [toggleReaction] calls. *)
Lemma runToggles_invariant (P : Post.t -> Prop) :
  (forall u r p, P p -> P (react u r p)) ->
  forall calls s (j : nat) p,
    _stubPosts s !! j = Some p -> P p ->
    exists p', _stubPosts (runToggles calls s) !! j = Some p' /\
               Post.id p' = Post.id p /\ P p'.
Proof.
  intros Hreact calls. induction calls as [|[[postId u] r] calls IH];
    intros s j p Hj HP.
  - exists p. by rewrite runToggles_nil.
  - rewrite runToggles_cons.
    destruct (toggleReaction_lookup postId u r s j p Hj) as [Hsame|[_ Hnew]].
    + by apply IH.
    + destruct (IH _ _ _ Hnew (Hreact u r p HP)) as (p' & Hp' & Hid & HP').
      exists p'. rewrite Hid, react_id. done.
Qed.

End toggle_facts.

(** ** Claims about [toggleReaction] *)

(** C1. Mutual exclusion: take any post of the store in which user [u] is
    in neither [likedBy] nor [dislikedBy]. After any sequence of
    [toggleReaction] calls (on this or any other post, by [u] or any other
    user, with either kind) the post is still in its slot, has the same id,
    and [u] is not in both of its sets. *)
Theorem toggleReaction_mutual_exclusion
    (calls : list (string * string * Reaction)) (s : Store)
    (j : nat) (p : Post.t) (u : string) :
  _stubPosts s !! j = Some p ->
  u ∉ Post.likedBy p ->
  u ∉ Post.dislikedBy p ->
  exists p', _stubPosts (runToggles calls s) !! j = Some p' /\
             Post.id p' = Post.id p /\
             ~ (u ∈ Post.likedBy p' /\ u ∈ Post.dislikedBy p').
Proof.
  intros Hj Hl Hd.
  apply (runToggles_invariant (exclusive u)); [|done|].
  - intros u' r q. apply react_exclusive.
  - unfold exclusive. tauto.
Qed.

Lemma toggleReaction_mutual_exclusion_witness :
  exists p',
    _stubPosts
      (runToggles [("post_1000", "u2", like); ("post_1000", "u2", dislike);
                   ("post_1000", "u7", dislike); ("post_1000", "u2", like)]
         rainStore) !! 0%nat = Some p' /\
    Post.id p' = Post.id rainPost /\
    ~ ("u2" ∈ Post.likedBy p' /\ "u2" ∈ Post.dislikedBy p').
Proof.
  apply (toggleReaction_mutual_exclusion _ rainStore 0 rainPost "u2").
  - reflexivity.
  - apply not_elem_of_nil.
  - apply not_elem_of_nil.
Defined.

(** C3 as the specification states it fails: on the empty store the call
    [toggleReaction("missing-id", "u1", like)] finds no post, and its
    promise resolves; no [NotFound] is signalled. *)
Lemma toggleReaction_missing_not_signalled :
  ~ (getPost "missing-id" initialStore = None ->
     outcome (toggleReaction "missing-id" "u1" like) initialStore
       = Rejected NotFound /\
     exec (toggleReaction "missing-id" "u1" like) initialStore = initialStore).
Proof. intros H. destruct (H eq_refl) as [Hout _]. discriminate Hout. Qed.

(** C3, amended. For a post id that no post of the store has,
    [toggleReaction] returns normally (the promise resolves, nothing is
    signalled) and leaves the store as it was: a silent no-op. *)
Theorem toggleReaction_missing_noop
    (s : Store) (postId userId : string) (reaction : Reaction) :
  getPost postId s = None ->
  outcome (toggleReaction postId userId reaction) s = Resolved tt /\
  exec (toggleReaction postId userId reaction) s = s.
Proof.
  intros Hmissing. split; [apply outcome_toggleReaction|].
  rewrite exec_toggleReaction. unfold getPost in Hmissing.
  by destruct (findPost postId (_stubPosts s)) as [[i p]|].
Qed.

Lemma toggleReaction_missing_noop_witness :
  outcome (toggleReaction "missing-id" "u1" like) rainStore = Resolved tt /\
  exec (toggleReaction "missing-id" "u1" like) rainStore = rainStore.
Proof.
  apply (toggleReaction_missing_noop rainStore "missing-id" "u1" like).
  reflexivity.
Defined.

(** C10. Frame of [toggleReaction]: the comment store is unchanged, the
    array of posts keeps its length, and every slot holds a post equal to
    the one before in [id], [authorId], [authorName], [title],
    [description], [mediaUrl], [mediaType], [commentCount] and
    [createdAt]; a post whose id is not [postId], or that is not the post
    [find] returns, is unchanged in every field. *)
Theorem toggleReaction_frame
    (s : Store) (postId userId : string) (reaction : Reaction) :
  _stubComments (exec (toggleReaction postId userId reaction) s)
    = _stubComments s /\
  length (_stubPosts (exec (toggleReaction postId userId reaction) s))
    = length (_stubPosts s) /\
  forall (j : nat) (p : Post.t),
    _stubPosts s !! j = Some p ->
    exists p',
      _stubPosts (exec (toggleReaction postId userId reaction) s) !! j
        = Some p' /\
      sameFrame p p' /\
      (Post.id p ≠ postId -> p' = p) /\
      (findPost postId (_stubPosts s) ≠ Some (j, p) -> p' = p).
Proof.
  split; [apply toggleReaction_comments|].
  split; [apply toggleReaction_length|].
  intros j p Hj. rewrite exec_toggleReaction.
  destruct (findPost postId (_stubPosts s)) as [[i q]|] eqn:Hfind.
  - apply findPost_Some in Hfind as [Hi Hid]. simpl.
    destruct (decide (i = j)) as [->|Hne].
    + rewrite Hi in Hj. injection Hj as ->.
      exists (react userId reaction p). split_and!.
      * apply list_lookup_insert_eq. by eapply lookup_lt_Some.
      * apply react_sameFrame.
      * intros Hid'. by destruct Hid'.
      * intros Hneq. by destruct Hneq.
    + exists p. rewrite list_lookup_insert_ne by done.
      split_and!; [done|apply sameFrame_refl|done|done].
  - exists p. split_and!; [done|apply sameFrame_refl|done|done].
Qed.

(** ** [createPost] and [addComment] on the store *)

Section create_comment_facts.

Implicit Types (s : Store) (postId : string) (p : Post.t).

Lemma exec_createPost now d s :
  exec (createPost now d) s
  = mkStore (PostDraft.withId (postIdAt now) d :: _stubPosts s) (_stubComments s).
Proof. done. Qed.

Lemma outcome_createPost now d s :
  outcome (createPost now d) s = Resolved (postIdAt now).
Proof. done. Qed.

Lemma exec_addComment now postId c s :
  exec (addComment now postId c) s =
  mkStore
    match findPost postId (_stubPosts s) with
    | Some (i, p) =>
        <[i := Post.setCommentCount (Z.of_nat (length (pushed now postId c s))) p]>
          (_stubPosts s)
    | None => _stubPosts s
    end
    (<[postId := pushed now postId c s]> (_stubComments s)).
Proof.
  unfold exec, addComment, bind, readComments, writeComments, readPosts; simpl.
  by destruct (findPost postId (_stubPosts s)) as [[i p]|].
Qed.

Lemma outcome_addComment now postId c s :
  outcome (addComment now postId c) s = Resolved tt.
Proof.
  unfold outcome, addComment, bind, readComments, writeComments, readPosts;
    simpl.
  by destruct (findPost postId (_stubPosts s)) as [[i p]|].
Qed.

Lemma addComment_lookup now postId c s (j : nat) p :
  _stubPosts (exec (addComment now postId c) s) !! j = Some p ->
  exists q, _stubPosts s !! j = Some q /\
    (p = q \/
     (findPost postId (_stubPosts s) = Some (j, q) /\
      p = Post.setCommentCount (Z.of_nat (length (pushed now postId c s))) q)).
Proof.
  rewrite exec_addComment. simpl.
  destruct (findPost postId (_stubPosts s)) as [[i q]|] eqn:Hfind;
    [|by eauto].
  pose proof (findPost_Some _ _ _ _ Hfind) as [Hi Hid].
  destruct (decide (i = j)) as [->|Hne].
  - rewrite list_lookup_insert_eq by (by eapply lookup_lt_Some).
    intros [= <-]. eauto.
  - rewrite list_lookup_insert_ne by done. eauto.
Qed.

Lemma commentsOf_addComment now postId c s postId' :
  commentsOf postId' (exec (addComment now postId c) s) =
  if decide (postId = postId') then pushed now postId c s
  else commentsOf postId' s.
Proof.
  rewrite exec_addComment. unfold commentsOf at 1. simpl.
  rewrite lookup_insert. by case_decide.
Qed.

End create_comment_facts.

(** ** Claims about the counters *)

Section step_facts.

Implicit Types (s : Store) (u : string) (r : Reaction) (p : Post.t).

(** A property of posts kept by [react], independent of [commentCount] and
    true of a zero-initialized post, is kept by every operation. *)
Lemma step_preserves (P : Post.t -> Prop) (op : Op) s :
  (forall u r p, P p -> P (react u r p)) ->
  (forall c p, P p -> P (Post.setCommentCount c p)) ->
  (forall i d, zeroInitialized d -> P (PostDraft.withId i d)) ->
  zeroInitializedOp op ->
  (forall p, p ∈ _stubPosts s -> P p) ->
  forall p, p ∈ _stubPosts (step op s) -> P p.
Proof.
  intros Hreact Hcount Hzero Hop Hs p Hp.
  destruct op as [now d|postId u r|now postId c]; cbn [step] in Hp.
  - rewrite exec_createPost in Hp. simpl in Hp.
    apply elem_of_cons in Hp as [->|Hp]; [by apply Hzero|by apply Hs].
  - apply list_elem_of_lookup in Hp as [j Hj].
    assert (exists q, _stubPosts s !! j = Some q) as [q Hq].
    { apply lookup_lt_is_Some. rewrite <- (toggleReaction_length postId u r).
      by eapply lookup_lt_Some. }
    assert (P q) as Hcq by (eapply Hs, list_elem_of_lookup_2, Hq).
    destruct (toggleReaction_lookup postId u r s j q Hq) as [Hsame|[_ Hnew]].
    + rewrite Hsame in Hj. by injection Hj as <-.
    + rewrite Hnew in Hj. injection Hj as <-. by apply Hreact.
  - apply list_elem_of_lookup in Hp as [j Hj].
    apply addComment_lookup in Hj as (q & Hq & [->|[_ ->]]).
    + eapply Hs, list_elem_of_lookup_2, Hq.
    + apply Hcount, (Hs q). eapply list_elem_of_lookup_2, Hq.
Qed.

Lemma NoDup_snoc (u : string) (l : list string) :
  u ∉ l -> NoDup l -> NoDup (l ++ [u]).
Proof.
  intros Hu Hl. apply NoDup_app. split_and!; [done| |apply NoDup_singleton].
  intros v Hv Hv'. apply list_elem_of_singleton in Hv' as ->. done.
Qed.

Lemma react_NoDup u r p :
  NoDup (Post.likedBy p) -> NoDup (Post.dislikedBy p) ->
  NoDup (Post.likedBy (react u r p)) /\ NoDup (Post.dislikedBy (react u r p)).
Proof.
  intros Hl Hd.
  assert (NoDup (Post.getBy r p) /\ NoDup (Post.getBy (other r) p)) as [Ht Ho]
    by (destruct r; simpl; tauto).
  assert (NoDup (Post.getBy r (react u r p)) /\
          NoDup (Post.getBy (other r) (react u r p)));
    [|destruct r; simpl in *; tauto].
  destruct (react_cases u r p)
    as [(Hin & -> & _ & -> & _)
       |[(Hin & Hoin & -> & _ & -> & _)|(Hin & Hoin & -> & _ & -> & _)]];
    split; auto using NoDup_filter, NoDup_snoc.
Qed.

Lemma lengthsMatch_countsMatch p : lengthsMatch p -> countsMatch p.
Proof.
  intros (Hl & Hd & Hcl & Hcd). unfold countsMatch.
  by rewrite !card_NoDup.
Qed.

Lemma react_lengthsMatch u r p : lengthsMatch p -> lengthsMatch (react u r p).
Proof.
  intros Hlm. pose proof (lengthsMatch_countsMatch p Hlm) as Hc.
  destruct Hlm as (Hl & Hd & _ & _).
  destruct (react_NoDup u r p Hl Hd) as [Hl' Hd'].
  destruct (react_countsMatch u r p Hc) as [Hcl Hcd].
  split_and!; try done.
  - by rewrite Hcl, card_NoDup.
  - by rewrite Hcd, card_NoDup.
Qed.

Lemma zeroInitialized_lengthsMatch i d :
  zeroInitialized d -> lengthsMatch (PostDraft.withId i d).
Proof.
  intros (Hl & Hd & Hlb & Hdb & _). unfold lengthsMatch; simpl.
  rewrite Hl, Hd, Hlb, Hdb. split_and!; try done; constructor.
Qed.

End step_facts.

(** C2. Count and cardinality: if every post of the store has
    [likeCount] equal to the number of elements of the set [likedBy] and
    [dislikeCount] equal to the number of elements of [dislikedBy], the
    same holds of every post after one operation: [toggleReaction],
    [addComment], or [createPost] with a zero-initialized draft. *)
Theorem counts_match_preserved (op : Op) (s : Store) :
  zeroInitializedOp op ->
  (forall p, p ∈ _stubPosts s -> countsMatch p) ->
  forall p, p ∈ _stubPosts (step op s) -> countsMatch p.
Proof.
  apply (step_preserves countsMatch).
  - apply react_countsMatch.
  - intros c p Hp. exact Hp.
  - intros i d Hd. by apply lengthsMatch_countsMatch, zeroInitialized_lengthsMatch.
Qed.

Lemma counts_match_preserved_witness :
  countsMatch (react "u2" like rainPost).
Proof.
  apply (counts_match_preserved (OpToggleReaction "post_1000" "u2" like) rainStore).
  - exact I.
  - intros p Hp. apply list_elem_of_singleton in Hp as ->.
    split; reflexivity.
  - vm_compute. apply list_elem_of_here.
Defined.

(** The same on the arrays themselves: when no array holds a user twice
    and each counter is the length of its array, this is still so after
    the operation. *)
Lemma lengths_match_preserved (op : Op) (s : Store) :
  zeroInitializedOp op ->
  (forall p, p ∈ _stubPosts s -> lengthsMatch p) ->
  forall p, p ∈ _stubPosts (step op s) -> lengthsMatch p.
Proof.
  apply (step_preserves lengthsMatch).
  - apply react_lengthsMatch.
  - intros c p Hp. exact Hp.
  - apply zeroInitialized_lengthsMatch.
Qed.

(** ** Two calls in a row, and the switch *)

Section pair_facts.

Implicit Types (s : Store) (u v postId : string) (r : Reaction) (p : Post.t).

Lemma react_count_target u r p :
  Post.getCount r (react u r p) =
  if bool_decide (u ∈ Post.getBy r p)
  then 0 `max` (Post.getCount r p - 1) else Post.getCount r p + 1.
Proof.
  destruct (react_cases u r p)
    as [(Hin & _ & -> & _)|[(Hin & _ & _ & -> & _)|(Hin & _ & _ & -> & _)]].
  - by rewrite bool_decide_eq_true_2.
  - by rewrite bool_decide_eq_false_2.
  - by rewrite bool_decide_eq_false_2.
Qed.

Lemma react_count_other u r p :
  Post.getCount (other r) (react u r p) =
  if bool_decide ((u ∉ Post.getBy r p) /\ u ∈ Post.getBy (other r) p)
  then 0 `max` (Post.getCount (other r) p - 1) else Post.getCount (other r) p.
Proof.
  destruct (react_cases u r p)
    as [(Hin & _ & _ & _ & ->)
       |[(Hin & Ho & _ & _ & _ & ->)|(Hin & Ho & _ & _ & _ & ->)]].
  - rewrite bool_decide_eq_false_2; [done|tauto].
  - by rewrite bool_decide_eq_true_2.
  - rewrite bool_decide_eq_false_2; [done|tauto].
Qed.

Lemma react_twice_target u r p v :
  v ∈ Post.getBy r (react u r (react u r p)) <-> v ∈ Post.getBy r p.
Proof.
  rewrite !react_member_target.
  destruct (decide (v = u)) as [->|Hne];
    destruct (decide (u ∈ Post.getBy r p)); naive_solver.
Qed.

Lemma react_twice_other u r p v :
  u ∉ Post.getBy (other r) p ->
  v ∈ Post.getBy (other r) (react u r (react u r p))
  <-> v ∈ Post.getBy (other r) p.
Proof.
  intros Ho. rewrite !react_member_other, !react_member_target.
  destruct (decide (v = u)) as [->|Hne]; naive_solver.
Qed.

Lemma react_twice_count_target u r p :
  Post.getCount r p = card (Post.getBy r p) ->
  Post.getCount r (react u r (react u r p)) = Post.getCount r p.
Proof.
  intros Hc. rewrite (react_count_target u r (react u r p)).
  rewrite (react_count_target u r p).
  pose proof (card_nonneg (Post.getBy r p)).
  destruct (decide (u ∈ Post.getBy r p)) as [Hin|Hin].
  - rewrite bool_decide_eq_false_2
      by (rewrite react_member_target; naive_solver).
    rewrite bool_decide_eq_true_2 by done.
    pose proof (card_member_pos _ _ Hin). lia.
  - rewrite bool_decide_eq_true_2
      by (rewrite react_member_target; naive_solver).
    rewrite bool_decide_eq_false_2 by done. lia.
Qed.

Lemma react_twice_count_other u r p :
  u ∉ Post.getBy (other r) p ->
  Post.getCount (other r) (react u r (react u r p))
  = Post.getCount (other r) p.
Proof.
  intros Ho. rewrite (react_count_other u r (react u r p)).
  rewrite (react_count_other u r p).
  rewrite (bool_decide_eq_false_2 (_ /\ u ∈ Post.getBy (other r) p)) by tauto.
  rewrite bool_decide_eq_false_2; [done|].
  rewrite react_member_other. tauto.
Qed.

End pair_facts.

(** C4 as the specification states it fails: "u2" dislikes the post;
    [toggleReaction(id, "u2", like)] called twice first switches "u2" to
    like and then un-reacts, so "u2" ends in neither set and
    [dislikeCount] is 0, not the 1 it was. *)
Lemma toggleReaction_twice_not_restored :
  ~ (forall p,
       getPost "post_1000" dislikedStore = Some p ->
       exists p',
         getPost "post_1000" (toggledTwice "post_1000" "u2" like dislikedStore)
           = Some p' /\
         restoredFor "u2" p p').
Proof.
  intros H. destruct (H _ eq_refl) as (p' & Hp' & _ & _ & _ & Hcount).
  vm_compute in Hp'. injection Hp' as <-. discriminate Hcount.
Qed.

(** C4, amended. For a post present in the store whose counters equal the
    cardinalities of its sets, and a user [u] who does not hold the
    opposite reaction, [toggleReaction(P, u, k)] called twice in immediate
    succession restores the reaction state: every user is in [likedBy]
    and in [dislikedBy] exactly when it was before, [likeCount] and
    [dislikeCount] have their former values, and no other field changed. *)
Theorem toggleReaction_twice_restores
    (s : Store) (postId u : string) (k : Reaction) (p : Post.t) :
  getPost postId s = Some p ->
  countsMatch p ->
  u ∉ Post.getBy (other k) p ->
  exists p',
    getPost postId (toggledTwice postId u k s) = Some p' /\
    restoredFor u p p' /\
    (forall v, (v ∈ Post.likedBy p' <-> v ∈ Post.likedBy p) /\
               (v ∈ Post.dislikedBy p' <-> v ∈ Post.dislikedBy p)) /\
    sameFrame p p'.
Proof.
  intros Hp Hc Ho. exists (react u k (react u k p)).
  split; [by do 2 apply toggleReaction_getPost|].
  apply (countsMatch_by k) in Hc as [Hc _].
  pose proof (react_twice_target u k p) as Ht.
  pose proof (react_twice_other u k p) as Hot.
  pose proof (react_twice_count_target u k p Hc) as Hct.
  pose proof (react_twice_count_other u k p Ho) as Hco.
  assert (sameFrame p (react u k (react u k p))) as Hframe.
  { pose proof (react_sameFrame u k p) as H1.
    pose proof (react_sameFrame u k (react u k p)) as H2.
    unfold sameFrame in *. destruct_and!. split_and!; congruence. }
  unfold restoredFor. destruct k; simpl in *; naive_solver.
Qed.

Lemma toggleReaction_twice_restores_witness :
  exists p',
    getPost "post_1000" (toggledTwice "post_1000" "u2" dislike dislikedStore)
      = Some p' /\
    restoredFor "u2" (react "u2" dislike rainPost) p' /\
    (forall v,
       (v ∈ Post.likedBy p' <-> v ∈ Post.likedBy (react "u2" dislike rainPost)) /\
       (v ∈ Post.dislikedBy p'
        <-> v ∈ Post.dislikedBy (react "u2" dislike rainPost))) /\
    sameFrame (react "u2" dislike rainPost) p'.
Proof.
  apply (toggleReaction_twice_restores dislikedStore "post_1000" "u2" dislike).
  - reflexivity.
  - split; reflexivity.
  - apply not_elem_of_nil.
Defined.

(** When [u] does hold the opposite reaction, the first call switches and
    the second un-reacts: [u] ends in neither set. *)
Lemma react_twice_from_opposite (u : string) (k : Reaction) (p : Post.t) :
  u ∈ Post.getBy (other k) p ->
  u ∉ Post.getBy k p ->
  (u ∉ Post.getBy k (react u k (react u k p))) /\
  u ∉ Post.getBy (other k) (react u k (react u k p)).
Proof.
  intros Ho Hk. rewrite react_twice_target.
  rewrite !react_member_other, !react_member_target. naive_solver.
Qed.

(** C5 as the specification states it fails: the post lists "u2" in
    [dislikedBy] and its [dislikeCount] is 0. [toggleReaction(id, "u2",
    like)] moves "u2" to [likedBy], but [Math.max(0, 0 - 1)] leaves
    [dislikeCount] at 0: it is not decremented. *)
Lemma toggleReaction_switch_floored :
  ~ (forall p,
       getPost "post_1000" uncountedStore = Some p ->
       "u2" ∈ Post.dislikedBy p ->
       "u2" ∉ Post.likedBy p ->
       exists p',
         getPost "post_1000"
           (exec (toggleReaction "post_1000" "u2" like) uncountedStore)
           = Some p' /\
         "u2" ∈ Post.likedBy p' /\
         ("u2" ∉ Post.dislikedBy p') /\
         Post.dislikeCount p' = Post.dislikeCount p - 1 /\
         Post.likeCount p' = Post.likeCount p + 1).
Proof.
  intros H.
  destruct (H (PostDraft.withId "post_1000" uncounted) eq_refl)
    as (p' & Hp' & _ & _ & Hcount & _).
  - apply list_elem_of_here.
  - apply not_elem_of_nil.
  - vm_compute in Hp'. injection Hp' as <-. discriminate Hcount.
Qed.

(** C5, amended. Switch law: for a post present in the store whose
    counters equal the cardinalities of its sets (as the data model has
    it, and as every post of every store the screen builds has) and a user
    [u] who is in [dislikedBy] and not in [likedBy],
    [toggleReaction(P, u, like)] leaves [u] in [likedBy] and not in
    [dislikedBy], with [dislikeCount] one less and [likeCount] one more. *)
Theorem toggleReaction_switch
    (s : Store) (postId u : string) (p : Post.t) :
  getPost postId s = Some p ->
  countsMatch p ->
  u ∈ Post.dislikedBy p ->
  u ∉ Post.likedBy p ->
  exists p',
    getPost postId (exec (toggleReaction postId u like) s) = Some p' /\
    u ∈ Post.likedBy p' /\
    (u ∉ Post.dislikedBy p') /\
    Post.dislikeCount p' = Post.dislikeCount p - 1 /\
    Post.likeCount p' = Post.likeCount p + 1.
Proof.
  intros Hp [_ Hcd] Hd Hl. exists (react u like p).
  split; [by apply toggleReaction_getPost|].
  pose proof (react_member_target u like p u) as Ht.
  pose proof (react_member_other u like p u) as Hot.
  pose proof (react_count_target u like p) as Hct.
  pose proof (react_count_other u like p) as Hco.
  rewrite bool_decide_eq_false_2 in Hct by done.
  rewrite bool_decide_eq_true_2 in Hco by done.
  pose proof (card_member_pos _ _ Hd).
  simpl in *. split_and!; [naive_solver|naive_solver|lia|lia].
Qed.

Lemma toggleReaction_switch_witness :
  exists p',
    getPost "post_1000" (exec (toggleReaction "post_1000" "u2" like) dislikedStore)
      = Some p' /\
    "u2" ∈ Post.likedBy p' /\
    ("u2" ∉ Post.dislikedBy p') /\
    Post.dislikeCount p' = Post.dislikeCount (react "u2" dislike rainPost) - 1 /\
    Post.likeCount p' = Post.likeCount (react "u2" dislike rainPost) + 1.
Proof.
  apply (toggleReaction_switch dislikedStore "post_1000" "u2").
  - reflexivity.
  - split; reflexivity.
  - apply list_elem_of_singleton. reflexivity.
  - apply not_elem_of_nil.
Defined.

(** ** Claims about [addComment] *)

Section find_facts.

Implicit Types (ps : list Post.t) (postId : string).

(** Assigning to a field other than [id] through the reference [find]
    returned: [find] returns the same slot afterwards. *)
Lemma findPost_insert postId ps (i : nat) p q :
  findPost postId ps = Some (i, p) ->
  Post.id q = postId ->
  findPost postId (<[i := q]> ps) = Some (i, q).
Proof.
  unfold findPost. intros Hfind Hq.
  apply list_find_Some in Hfind as (Hi & Hid & Hbefore).
  apply list_find_Some. split_and!.
  - apply list_lookup_insert_eq. by eapply lookup_lt_Some.
  - done.
  - intros j y Hj Hlt. rewrite list_lookup_insert_ne in Hj by lia. eauto.
Qed.

End find_facts.

(** What [addComment] does with the blank comment on the "Rain advice"
    post, and with a comment for a post that does not exist. *)
Example addComment_blank_run :
  outcome (addComment 1006 "post_1000" blankComment) rainStore = Resolved tt /\
  Post.commentCount <$> getPost "post_1000" rainStore = Some 0 /\
  Post.commentCount
    <$> getPost "post_1000" (exec (addComment 1006 "post_1000" blankComment) rainStore)
    = Some 1.
Proof. split_and!; vm_compute; reflexivity. Qed.

Example addComment_missing_run :
  outcome (addComment 1004 "missing-id" niceTip) rainStore = Resolved tt /\
  commentsOf "missing-id" rainStore = [] /\
  Comment.text
    <$> commentsOf "missing-id" (exec (addComment 1004 "missing-id" niceTip) rainStore)
    = ["Nice tip"].
Proof. split_and!; vm_compute; reflexivity. Qed.

Lemma plainId_postIdAt (now : Z) : plainId (postIdAt now).
Proof.
  unfold plainId, inheritedNames, postIdAt. intros H.
  repeat (apply elem_of_cons in H as [H|H]; [discriminate H|]).
  by apply elem_of_nil in H.
Qed.

Lemma commentIdAt_inj (a b : Z) : commentIdAt a = commentIdAt b -> a = b.
Proof.
  unfold commentIdAt. intros H. simpl in H. injection H as H.
  by apply (inj pretty).
Qed.

(** C6 as the specification states it fails, on two counts. The text
    "   " is empty once trimmed and the post is present, yet [addComment]
    does not fail with [EmptyText]: its promise resolves (and the comment
    is stored). And the id is not always fresh: two calls that both read
    the clock at 1004 store two comments under the one id "cmt_1004". *)
Lemma addComment_not_as_specified :
  ~ ((outcome (addComment 1006 "post_1000" blankComment) rainStore
        = Rejected EmptyText
      <-> trim (CommentDraft.text blankComment) = "") /\
     (outcome (addComment 1006 "post_1000" blankComment) rainStore
        = Rejected NotFound
      <-> getPost "post_1000" rainStore = None) /\
     (outcome (addComment 1006 "post_1000" blankComment) rainStore
        = Rejected EmptyText \/
      outcome (addComment 1006 "post_1000" blankComment) rainStore
        = Rejected NotFound ->
      exec (addComment 1006 "post_1000" blankComment) rainStore = rainStore)) /\
  ~ NoDup (Comment.id <$> commentsOf "post_1000" sameClockStore).
Proof.
  split.
  - intros [[_ Hblank] _].
    specialize (Hblank eq_refl). discriminate Hblank.
  - vm_compute. intros Hnodup. apply NoDup_cons_1_1 in Hnodup.
    apply Hnodup, list_elem_of_here.
Qed.

(** C6, amended. For a post id that names nothing inherited from
    [Object.prototype] (every id [createPost] mints is such an id),
    [addComment] does not fail, with any text and with or without the
    post: its promise resolves, the comment built from the draft is
    appended to the array kept for [postId] under the id "cmt_" followed
    by the clock reading, the arrays of other post ids are untouched;
    when the post is present its [commentCount] becomes the length of
    that array and nothing else of it changes; when it is absent
    [_stubPosts] is unchanged. The id is the one of no other clock
    reading, so it is new to the array as long as no comment of the array
    was added at the same reading. Text that is empty once trimmed is
    stopped before, by the caller [send], which returns without a signal
    and without touching the store. *)
Theorem addComment_appends
    (now : Z) (postId : string) (comment : CommentDraft.t) (s : Store) :
  plainId postId ->
  outcome (addComment now postId comment) s = Resolved tt /\
  commentsOf postId (exec (addComment now postId comment) s)
    = commentsOf postId s ++ [CommentDraft.withId (commentIdAt now) comment] /\
  (forall postId', postId' ≠ postId ->
     _stubComments (exec (addComment now postId comment) s) !! postId'
       = _stubComments s !! postId') /\
  match getPost postId s with
  | Some p =>
      getPost postId (exec (addComment now postId comment) s)
        = Some (Post.setCommentCount
                  (Z.of_nat
                     (length
                        (commentsOf postId
                           (exec (addComment now postId comment) s)))) p)
  | None => _stubPosts (exec (addComment now postId comment) s) = _stubPosts s
  end /\
  (forall now', commentIdAt now' = commentIdAt now -> now' = now) /\
  (forall createdAt now' userId userName text,
     trim text = "" ->
     outcome (send createdAt now' postId userId userName text) s = Resolved tt /\
     exec (send createdAt now' postId userId userName text) s = s).
Proof.
  intros _.
  split; [apply outcome_addComment|].
  split; [by rewrite commentsOf_addComment, decide_True|].
  split.
  { intros postId' Hne. rewrite exec_addComment. simpl.
    by rewrite lookup_insert_ne. }
  split.
  { rewrite commentsOf_addComment, decide_True by done.
    unfold getPost. rewrite exec_addComment. simpl.
    destruct (findPost postId (_stubPosts s)) as [[i p]|] eqn:Hfind; [|done].
    simpl. erewrite findPost_insert; [done|done|].
    simpl. by apply findPost_Some in Hfind as [_ ?]. }
  split; [intros now'; apply commentIdAt_inj|].
  intros createdAt now' userId userName text Hblank.
  unfold send. rewrite decide_True by done. done.
Qed.

Lemma addComment_appends_witness :
  outcome (addComment 1004 "post_1000" niceTip) rainStore = Resolved tt /\
  commentsOf "post_1000" (exec (addComment 1004 "post_1000" niceTip) rainStore)
    = commentsOf "post_1000" rainStore
      ++ [CommentDraft.withId (commentIdAt 1004) niceTip] /\
  (forall postId', postId' ≠ "post_1000" ->
     _stubComments (exec (addComment 1004 "post_1000" niceTip) rainStore) !! postId'
       = _stubComments rainStore !! postId') /\
  match getPost "post_1000" rainStore with
  | Some p =>
      getPost "post_1000" (exec (addComment 1004 "post_1000" niceTip) rainStore)
        = Some (Post.setCommentCount
                  (Z.of_nat
                     (length
                        (commentsOf "post_1000"
                           (exec (addComment 1004 "post_1000" niceTip) rainStore))))
                  p)
  | None =>
      _stubPosts (exec (addComment 1004 "post_1000" niceTip) rainStore)
        = _stubPosts rainStore
  end /\
  (forall now', commentIdAt now' = commentIdAt 1004 -> now' = 1004) /\
  (forall createdAt now' userId userName text,
     trim text = "" ->
     outcome (send createdAt now' "post_1000" userId userName text) rainStore
       = Resolved tt /\
     exec (send createdAt now' "post_1000" userId userName text) rainStore
       = rainStore).
Proof.
  apply (addComment_appends 1004 "post_1000" niceTip rainStore).
  apply (bool_decide_unpack _). vm_compute. exact I.
Defined.

(** ** The sort: a stable sorted permutation *)

Section sort_facts.

Context {A : Type} (key : A -> Z).

Lemma js_insert_perm (cmp : A -> A -> Z) x l : js_insert cmp x l ≡ₚ x :: l.
Proof.
  induction l as [|y l IH]; simpl; [done|].
  case_decide; [|done]. rewrite IH. apply Permutation_swap.
Qed.

Lemma js_sort_perm (cmp : A -> A -> Z) l : js_sort cmp l ≡ₚ l.
Proof.
  induction l as [|x l IH]; simpl; [done|].
  rewrite js_insert_perm. by f_equiv.
Qed.

Lemma js_sort_length (cmp : A -> A -> Z) l : length (js_sort cmp l) = length l.
Proof. apply Permutation_length, js_sort_perm. Qed.

Lemma js_insert_sorted_down x l :
  Sorted (fun a b => key b <= key a) l ->
  Sorted (fun a b => key b <= key a) (js_insert (down key) x l).
Proof.
  induction 1 as [|y l Hl IH Hhd]; simpl.
  - repeat constructor.
  - unfold down at 1. case_decide.
    + constructor; [done|].
      destruct Hhd as [|z l Hz]; simpl.
      * constructor. lia.
      * unfold down at 1. case_decide; constructor; lia.
    + constructor; [by constructor|]. constructor. lia.
Qed.

Lemma js_sort_sorted_down l :
  Sorted (fun a b => key b <= key a) (js_sort (down key) l).
Proof.
  induction l as [|x l IH]; simpl; [constructor|].
  by apply js_insert_sorted_down.
Qed.

Lemma Sorted_adjacent (R : A -> A -> Prop) l (i : nat) a b :
  Sorted R l -> l !! i = Some a -> l !! S i = Some b -> R a b.
Proof.
  intros Hl. revert i. induction Hl as [|x l Hl IH Hhd]; intros i Ha Hb.
  - done.
  - destruct i as [|i]; simpl in *.
    + injection Ha as ->. destruct Hhd as [|y l Hxy]; simpl in *; [done|].
      by injection Hb as ->.
    + eauto.
Qed.

End sort_facts.

(** ** Claims about the feed *)

(** C8. [fetchPosts] resolves with a list that holds every stored post
    exactly once (a permutation of [_stubPosts]) and is in descending
    order of [createdAt]: of two adjacent results the earlier one has a
    [createdAt] greater than or equal to that of the later one. The store
    is left as it was (the sort works on a copy). *)
Theorem fetchPosts_sorted_permutation (s : Store) :
  exists result,
    outcome fetchPosts s = Resolved result /\
    exec fetchPosts s = s /\
    result ≡ₚ _stubPosts s /\
    forall (i : nat) (a b : Post.t),
      result !! i = Some a -> result !! S i = Some b ->
      Post.createdAt b <= Post.createdAt a.
Proof.
  eexists. split; [reflexivity|]. split; [reflexivity|].
  split; [apply js_sort_perm|].
  intros i a b Ha Hb.
  eapply (Sorted_adjacent (fun a b => Post.createdAt b <= Post.createdAt a));
    [|exact Ha|exact Hb].
  apply (js_sort_sorted_down Post.createdAt).
Qed.

Example fetchPosts_run :
  let s := run [OpCreatePost 1000 (draftAt 1000); OpCreatePost 1003 (draftAt 1003);
                OpCreatePost 1001 (draftAt 1001)] initialStore in
  Post.id <$> _stubPosts s = ["post_1001"; "post_1003"; "post_1000"] /\
  Post.id <$> listPosts s = ["post_1003"; "post_1001"; "post_1000"].
Proof. split; vm_compute; reflexivity. Qed.

(** ** Post ids minted from the clock *)

Lemma postIdAt_inj (a b : Z) : postIdAt a = postIdAt b -> a = b.
Proof.
  unfold postIdAt. intros H. simpl in H. injection H as H.
  by apply (inj pretty).
Qed.

(** The post [createPost] stores is among the results of the next
    [fetchPosts], under the id [createPost] resolved with. *)
Lemma createPost_visible (now : Z) (post : PostDraft.t) (s : Store) :
  exists id result,
    outcome (createPost now post) s = Resolved id /\
    outcome fetchPosts (exec (createPost now post) s) = Resolved result /\
    PostDraft.withId id post ∈ result.
Proof.
  eexists _, _. split; [reflexivity|]. split; [reflexivity|].
  rewrite (js_sort_perm _ _). rewrite exec_createPost. simpl.
  apply list_elem_of_here.
Qed.

(** The id differs from the ids in the store exactly when no stored post
    was minted at the same clock value. *)
Lemma createPost_id_new (now : Z) (post : PostDraft.t) (s : Store) :
  (forall p, p ∈ _stubPosts s -> Post.id p ≠ postIdAt now) ->
  exists id,
    outcome (createPost now post) s = Resolved id /\
    forall p, p ∈ _stubPosts s -> Post.id p ≠ id.
Proof. intros Hnew. by exists (postIdAt now). Qed.

(** C9. Ids are not always new: [createPost] mints the id from the clock
    reading, so two calls that read the same value of [Date.now()] return
    the same id. Here both calls read 1000; the second one returns
    "post_1000", the id of the post already in the store, and the store
    then holds two posts with that id. The functions that look a post up
    by its id then reach the newer one only: a like on "post_1000" lands
    on the first slot and the older post cannot be reacted to. *)
Theorem createPost_same_clock_same_id :
  outcome (createPost 1000 rainAdvice) initialStore = Resolved "post_1000" /\
  Post.id <$> _stubPosts (exec (createPost 1000 rainAdvice) initialStore)
    = ["post_1000"] /\
  outcome (createPost 1000 (draftAt 1000))
    (exec (createPost 1000 rainAdvice) initialStore) = Resolved "post_1000" /\
  Post.id <$> _stubPosts collidedStore = ["post_1000"; "post_1000"] /\
  Post.likedBy
    <$> _stubPosts (exec (toggleReaction "post_1000" "u2" like) collidedStore)
    = [["u2"]; []].
Proof. split_and!; reflexivity. Qed.

(** In general: a second call at the clock value of a first returns an id
    that a stored post already has. *)
Lemma createPost_clock_collision (now : Z) (post post' : PostDraft.t) (s : Store) :
  exists id p,
    outcome (createPost now post') (exec (createPost now post) s) = Resolved id /\
    p ∈ _stubPosts (exec (createPost now post) s) /\
    Post.id p = id.
Proof.
  exists (postIdAt now), (PostDraft.withId (postIdAt now) post).
  split; [reflexivity|]. split; [|reflexivity].
  rewrite exec_createPost. apply list_elem_of_here.
Qed.

(** ** The comment counter *)

Section comment_count_facts.

Implicit Types (s : Store) (postId : string) (p : Post.t).

Lemma outcome_fetchComments postId s :
  outcome (fetchComments postId) s
  = Resolved (js_sort byCreatedAt (commentsOf postId s)).
Proof.
  unfold outcome, fetchComments, commentsOf, bind, readComments; simpl.
  by destruct (_stubComments s !! postId).
Qed.

Lemma exec_fetchComments postId s :
  exec (fetchComments postId) s =
  match _stubComments s !! postId with
  | Some arr =>
      mkStore (_stubPosts s)
        (<[postId := js_sort byCreatedAt arr]> (_stubComments s))
  | None => s
  end.
Proof.
  unfold exec, fetchComments, bind, readComments; simpl.
  by destruct (_stubComments s !! postId).
Qed.

Lemma listComments_length postId s :
  length (listComments postId s) = length (commentsOf postId s).
Proof.
  unfold listComments. rewrite outcome_fetchComments. apply js_sort_length.
Qed.

Lemma ids_insert (ps : list Post.t) (i : nat) p q :
  ps !! i = Some p -> Post.id q = Post.id p ->
  Post.id <$> <[i := q]> ps = Post.id <$> ps.
Proof.
  intros Hi Hid. rewrite list_fmap_insert, Hid.
  apply list_insert_id. by rewrite list_lookup_fmap, Hi.
Qed.

Lemma toggleReaction_ids postId u r s :
  Post.id <$> _stubPosts (exec (toggleReaction postId u r) s)
  = Post.id <$> _stubPosts s.
Proof.
  rewrite exec_toggleReaction.
  destruct (findPost postId (_stubPosts s)) as [[i p]|] eqn:Hfind; [|done].
  apply findPost_Some in Hfind as [Hi _]. simpl.
  eapply ids_insert; [done|apply react_id].
Qed.

Lemma addComment_ids now postId c s :
  Post.id <$> _stubPosts (exec (addComment now postId c) s)
  = Post.id <$> _stubPosts s.
Proof.
  rewrite exec_addComment. simpl.
  destruct (findPost postId (_stubPosts s)) as [[i p]|] eqn:Hfind; [|done].
  apply findPost_Some in Hfind as [Hi _]. by eapply ids_insert.
Qed.

Lemma storeInv_toggleReaction postId u r s :
  storeInv s -> storeInv (exec (toggleReaction postId u r) s).
Proof.
  intros [Hnd Hcc]. split; [by rewrite toggleReaction_ids|].
  intros p' Hp'. apply list_elem_of_lookup in Hp' as [j Hj].
  assert (exists q, _stubPosts s !! j = Some q) as [q Hq].
  { apply lookup_lt_is_Some. rewrite <- (toggleReaction_length postId u r).
    by eapply lookup_lt_Some. }
  assert (Post.commentCount p' = Post.commentCount q /\ Post.id p' = Post.id q)
    as [-> ->].
  { destruct (toggleReaction_lookup postId u r s j q Hq) as [Hsame|[_ Hnew]].
    - rewrite Hsame in Hj. by injection Hj as <-.
    - rewrite Hnew in Hj. injection Hj as <-.
      pose proof (react_sameFrame u r q) as Hf. unfold sameFrame in Hf.
      tauto. }
  unfold commentsOf. rewrite toggleReaction_comments.
  eapply Hcc, list_elem_of_lookup_2, Hq.
Qed.

Lemma storeInv_addComment now postId c s :
  storeInv s -> storeInv (exec (addComment now postId c) s).
Proof.
  intros [Hnd Hcc]. split; [by rewrite addComment_ids|].
  intros p' Hp'. apply list_elem_of_lookup in Hp' as [j Hj].
  rewrite commentsOf_addComment.
  rewrite exec_addComment in Hj. simpl in Hj.
  destruct (findPost postId (_stubPosts s)) as [[i q]|] eqn:Hfind.
  - pose proof (findPost_Some _ _ _ _ Hfind) as [Hi Hid].
    destruct (decide (i = j)) as [->|Hne].
    + rewrite list_lookup_insert_eq in Hj by (by eapply lookup_lt_Some).
      injection Hj as <-. simpl. by rewrite decide_True.
    + rewrite list_lookup_insert_ne in Hj by done.
      rewrite decide_False; [eapply Hcc, list_elem_of_lookup_2, Hj|].
      intros Heq. apply Hne.
      apply (NoDup_lookup (Post.id <$> _stubPosts s) i j postId Hnd).
      * by rewrite list_lookup_fmap, Hi; simpl; rewrite Hid.
      * by rewrite list_lookup_fmap, Hj; simpl; rewrite Heq.
  - rewrite decide_False; [eapply Hcc, list_elem_of_lookup_2, Hj|].
    intros Heq. eapply findPost_None; [done| |by symmetry].
    by eapply list_elem_of_lookup_2.
Qed.

Lemma storeInv_createPost now d s :
  admissibleOp s (OpCreatePost now d) ->
  storeInv s -> storeInv (exec (createPost now d) s).
Proof.
  intros (Hzero & Hnew & Hnone) [Hnd Hcc]. rewrite exec_createPost.
  split; simpl.
  - apply NoDup_cons. split; [|done].
    intros Hin. apply list_elem_of_fmap in Hin as (p & Hid & Hp).
    by apply (Hnew p).
  - intros p Hp. apply elem_of_cons in Hp as [->|Hp].
    + simpl. unfold commentsOf in *. simpl. rewrite Hnone.
      by destruct Hzero as (_ & _ & _ & _ & ->).
    + by apply Hcc.
Qed.

Lemma storeInv_step op s :
  admissibleOp s op -> storeInv s -> storeInv (step op s).
Proof.
  destruct op; simpl; intros Hop Hinv.
  - by apply storeInv_createPost.
  - by apply storeInv_toggleReaction.
  - by apply storeInv_addComment.
Qed.

Lemma storeInv_run ops s :
  admissible ops s -> storeInv s -> storeInv (run ops s).
Proof.
  revert s. induction ops as [|op ops IH]; intros s Hops Hinv; [done|].
  destruct Hops as [Hop Hops]. simpl. apply IH; [done|].
  by apply storeInv_step.
Qed.

Lemma storeInv_initial : storeInv initialStore.
Proof. split; [constructor|]. intros p Hp. by apply not_elem_of_nil in Hp. Qed.

End comment_count_facts.

(** C7 as the specification states it fails: a comment is added for the
    id "post_1005" while no post has it ([addComment] stores it all the
    same), then [createPost] reads the clock at 1005 and mints that id
    for a zero-initialized draft. The post has [commentCount] 0 and
    [fetchComments] returns one comment for it. *)
Lemma commentCount_drifts :
  ~ (forall p,
       p ∈ _stubPosts
             (run [OpAddComment 1000 "post_1005" niceTip;
                   OpCreatePost 1005 (draftAt 1005)] initialStore) ->
       exists cs,
         outcome (fetchComments (Post.id p))
           (run [OpAddComment 1000 "post_1005" niceTip;
                 OpCreatePost 1005 (draftAt 1005)] initialStore)
         = Resolved cs /\
         Post.commentCount p = Z.of_nat (length cs)).
Proof.
  intros H.
  destruct (H (PostDraft.withId "post_1005" (draftAt 1005)))
    as (cs & Hcs & Hcount).
  - apply list_elem_of_here.
  - vm_compute in Hcs. injection Hcs as <-. discriminate Hcount.
Qed.

(** C7, amended. Start from the empty store and run any sequence of
    [createPost], [toggleReaction] and [addComment] operations in which
    every [createPost] is given a zero-initialized draft and mints an id
    that is new to the store (no stored post has it and no comments are
    kept under it). Then for every post of the resulting store,
    [fetchComments] of its id resolves with as many comments as the post's
    [commentCount] says. *)
Theorem commentCount_matches_fetchComments (ops : list Op) :
  admissible ops initialStore ->
  forall p,
    p ∈ _stubPosts (run ops initialStore) ->
    exists cs,
      outcome (fetchComments (Post.id p)) (run ops initialStore) = Resolved cs /\
      Post.commentCount p = Z.of_nat (length cs).
Proof.
  intros Hops p Hp.
  destruct (storeInv_run ops initialStore Hops storeInv_initial) as [_ Hcc].
  exists (js_sort byCreatedAt (commentsOf (Post.id p) (run ops initialStore))).
  split; [apply outcome_fetchComments|].
  rewrite js_sort_length. by apply Hcc.
Qed.

Lemma commentCount_matches_fetchComments_witness :
  exists cs,
    outcome (fetchComments "post_1000")
      (run [OpCreatePost 1000 rainAdvice;
            OpToggleReaction "post_1000" "u2" like;
            OpAddComment 1004 "post_1000" niceTip;
            OpCreatePost 1005 (draftAt 1005);
            OpAddComment 1006 "post_1000" blankComment] initialStore)
    = Resolved cs /\
    2 = Z.of_nat (length cs).
Proof.
  apply (commentCount_matches_fetchComments
           [OpCreatePost 1000 rainAdvice;
            OpToggleReaction "post_1000" "u2" like;
            OpAddComment 1004 "post_1000" niceTip;
            OpCreatePost 1005 (draftAt 1005);
            OpAddComment 1006 "post_1000" blankComment])
    with (p := Post.setCommentCount 2 (react "u2" like rainPost)).
  - simpl. split_and!; try exact I; try reflexivity.
    + repeat split.
    + intros p Hp. by apply not_elem_of_nil in Hp.
    + repeat split.
    + intros p Hp. apply list_elem_of_singleton in Hp as ->. discriminate.
  - vm_compute. apply list_elem_of_further, list_elem_of_here.
Defined.

Example commentCount_run :
  Post.commentCount
    <$> _stubPosts
          (run [OpCreatePost 1000 rainAdvice;
                OpToggleReaction "post_1000" "u2" like;
                OpAddComment 1004 "post_1000" niceTip;
                OpCreatePost 1005 (draftAt 1005);
                OpAddComment 1006 "post_1000" blankComment] initialStore)
  = [0; 2].
Proof. vm_compute. reflexivity. Qed.

(** ** The stores the screen can build

    Every post of a store built through the handlers has arrays without
    repetition, counters equal to their lengths, and no user in both
    arrays. *)

Section screen_facts.

Implicit Types (s : Store) (p : Post.t).

Lemma exec_handleReact postId u r s :
  exec (handleReact postId u r) s = exec (toggleReaction postId u r) s.
Proof.
  unfold handleReact, exec, toggleReaction, fetchPosts, bind, readPosts,
    resolve; simpl.
  by destruct (findPost postId (_stubPosts s)) as [[i p]|].
Qed.

Lemma exec_submit createdAt now userId userName title desc media s :
  exec (submit createdAt now userId userName title desc media) s = s \/
  exists d, zeroInitialized d /\
    exec (submit createdAt now userId userName title desc media) s
    = exec (createPost now d) s.
Proof.
  unfold submit. case_decide; [by left|right].
  destruct media as [[uri ty]|]; eexists; (split; [|reflexivity]);
    repeat split.
Qed.

Lemma exec_send createdAt now postId userId userName text s :
  exec (send createdAt now postId userId userName text) s = s \/
  exists c,
    _stubPosts (exec (send createdAt now postId userId userName text) s)
    = _stubPosts (exec (addComment now postId c) s).
Proof.
  unfold send. case_decide; [by left|right]. eexists.
  unfold exec, addComment, fetchComments, bind, readComments, writeComments,
    readPosts, resolve; simpl.
  destruct (findPost postId (_stubPosts s)) as [[i p]|];
    unfold writePosts; simpl; by rewrite lookup_insert_eq.
Qed.

Lemma wellFormed_countsMatch p : wellFormed p -> countsMatch p.
Proof. intros [Hlm _]. by apply lengthsMatch_countsMatch. Qed.

Lemma wellFormed_step op s :
  zeroInitializedOp op ->
  (forall p, p ∈ _stubPosts s -> wellFormed p) ->
  forall p, p ∈ _stubPosts (step op s) -> wellFormed p.
Proof.
  apply (step_preserves wellFormed).
  - intros u r p [Hlm Hex]. split; [by apply react_lengthsMatch|].
    intros v. apply react_exclusive, Hex.
  - intros c p Hp. exact Hp.
  - intros i d Hd. split; [by apply zeroInitialized_lengthsMatch|].
    destruct Hd as (_ & _ & Hlb & _). intros u [Hu _]. simpl in Hu.
    rewrite Hlb in Hu. by apply not_elem_of_nil in Hu.
Qed.

Lemma wellFormed_handle ev s :
  (forall p, p ∈ _stubPosts s -> wellFormed p) ->
  forall p, p ∈ _stubPosts (handle ev s) -> wellFormed p.
Proof.
  intros Hs p. destruct ev as [t now uid un ti de me|t now pid uid un tx|pid uid r];
    simpl.
  - destruct (exec_submit t now uid un ti de me s) as [->|(d & Hz & ->)];
      [apply Hs|].
    by apply (wellFormed_step (OpCreatePost now d)).
  - destruct (exec_send t now pid uid un tx s) as [->|(c & ->)]; [apply Hs|].
    by apply (wellFormed_step (OpAddComment now pid c)).
  - rewrite exec_handleReact.
    by apply (wellFormed_step (OpToggleReaction pid uid r)).
Qed.

(** Every post of every store the screen builds from the empty one is
    well formed; in particular its counters are the cardinalities of its
    sets. *)
Lemma screen_posts_wellFormed (evs : list Event) :
  forall p, p ∈ _stubPosts (runEvents evs initialStore) -> wellFormed p.
Proof.
  assert (forall s, (forall p, p ∈ _stubPosts s -> wellFormed p) ->
            forall p, p ∈ _stubPosts (runEvents evs s) -> wellFormed p) as H.
  { induction evs as [|ev evs IH]; intros s Hs; [done|].
    simpl. apply IH. by apply wellFormed_handle. }
  apply H. intros p Hp. by apply not_elem_of_nil in Hp.
Qed.

Lemma screen_posts_countsMatch (evs : list Event) :
  forall p, p ∈ _stubPosts (runEvents evs initialStore) -> countsMatch p.
Proof. intros p Hp. eapply wellFormed_countsMatch, screen_posts_wellFormed, Hp. Qed.

End screen_facts.

(** * Further properties of the community screen *)

(** ** The sort, for any comparator that is a difference of keys *)

Section sort_general_facts.

Context {A : Type} (cmp : A -> A -> Z).

(** What the comparators of the source have: if [a] is to go behind [b],
    then [b] is not to go behind [a]. *)
Hypothesis cmp_asym : forall a b, 0 < cmp a b -> cmp b a <= 0.

Lemma js_insert_Sorted x l :
  Sorted (fun a b => cmp a b <= 0) l ->
  Sorted (fun a b => cmp a b <= 0) (js_insert cmp x l).
Proof.
  induction 1 as [|y l Hl IH Hhd]; simpl.
  - repeat constructor.
  - case_decide as Hxy.
    + constructor; [done|].
      destruct Hhd as [|z l Hz]; simpl.
      * constructor. by apply cmp_asym.
      * case_decide; constructor; [done|by apply cmp_asym].
    + constructor; [by constructor|]. constructor. lia.
Qed.

Lemma js_sort_Sorted l : Sorted (fun a b => cmp a b <= 0) (js_sort cmp l).
Proof.
  induction l as [|x l IH]; simpl; [constructor|].
  by apply js_insert_Sorted.
Qed.

(** An array already in order is left as it is. *)
Lemma js_sort_Sorted_id l :
  Sorted (fun a b => cmp a b <= 0) l -> js_sort cmp l = l.
Proof.
  induction 1 as [|x l Hl IH Hhd]; [done|].
  simpl. rewrite IH. destruct Hhd as [|y l Hxy]; simpl; [done|].
  by rewrite decide_False by lia.
Qed.

Lemma js_sort_idempotent l : js_sort cmp (js_sort cmp l) = js_sort cmp l.
Proof. apply js_sort_Sorted_id, js_sort_Sorted. Qed.

End sort_general_facts.


(** ** [fetchComments] *)

Section fetchComments_facts.

Implicit Types (s : Store) (postId : string).

Lemma byCreatedAt_asym (a b : Comment.t) :
  0 < byCreatedAt a b -> byCreatedAt b a <= 0.
Proof. unfold byCreatedAt. lia. Qed.

Lemma commentsOf_fetchComments postId s postId' :
  commentsOf postId' (exec (fetchComments postId) s) =
  if decide (postId = postId') then js_sort byCreatedAt (commentsOf postId s)
  else commentsOf postId' s.
Proof.
  rewrite exec_fetchComments. unfold commentsOf.
  destruct (_stubComments s !! postId) as [arr|] eqn:Harr; simpl.
  - rewrite lookup_insert. by case_decide.
  - case_decide as Heq; [|done]. by rewrite <- Heq, Harr.
Qed.

Lemma fetchComments_posts postId s :
  _stubPosts (exec (fetchComments postId) s) = _stubPosts s.
Proof.
  rewrite exec_fetchComments. by destruct (_stubComments s !! postId).
Qed.

End fetchComments_facts.

(** X1. For a post id that names nothing inherited from
    [Object.prototype], [fetchComments] resolves with the comments stored
    for the id, each exactly once, in ascending order of [createdAt]. The
    sort is in place: afterwards the store keeps the comments of that id
    in the order returned; the posts and the comments of other ids are as
    they were. *)
Theorem fetchComments_sorted_in_place (postId : string) (s : Store) :
  plainId postId ->
  exists result,
    outcome (fetchComments postId) s = Resolved result /\
    result ≡ₚ commentsOf postId s /\
    (forall (i : nat) (a b : Comment.t),
       result !! i = Some a -> result !! S i = Some b ->
       Comment.createdAt a <= Comment.createdAt b) /\
    commentsOf postId (exec (fetchComments postId) s) = result /\
    _stubPosts (exec (fetchComments postId) s) = _stubPosts s /\
    (forall postId', postId' ≠ postId ->
       _stubComments (exec (fetchComments postId) s) !! postId'
       = _stubComments s !! postId').
Proof.
  intros _.
  exists (js_sort byCreatedAt (commentsOf postId s)).
  split; [apply outcome_fetchComments|].
  split; [apply js_sort_perm|].
  split.
  { intros i a b Ha Hb.
    pose proof (js_sort_Sorted byCreatedAt byCreatedAt_asym
                  (commentsOf postId s)) as Hsorted.
    pose proof (Sorted_adjacent _ _ i a b Hsorted Ha Hb) as Hab.
    unfold byCreatedAt in Hab. lia. }
  split; [by rewrite commentsOf_fetchComments, decide_True|].
  split; [apply fetchComments_posts|].
  intros postId' Hne. rewrite exec_fetchComments.
  destruct (_stubComments s !! postId); [|done].
  simpl. by rewrite lookup_insert_ne.
Qed.

Lemma fetchComments_sorted_in_place_witness :
  exists result,
    outcome (fetchComments "post_1000") commentedStore = Resolved result /\
    result ≡ₚ commentsOf "post_1000" commentedStore /\
    (forall (i : nat) (a b : Comment.t),
       result !! i = Some a -> result !! S i = Some b ->
       Comment.createdAt a <= Comment.createdAt b) /\
    commentsOf "post_1000" (exec (fetchComments "post_1000") commentedStore)
      = result /\
    _stubPosts (exec (fetchComments "post_1000") commentedStore)
      = _stubPosts commentedStore /\
    (forall postId', postId' ≠ "post_1000" ->
       _stubComments (exec (fetchComments "post_1000") commentedStore) !! postId'
       = _stubComments commentedStore !! postId').
Proof.
  apply (fetchComments_sorted_in_place "post_1000" commentedStore).
  apply (bool_decide_unpack _). vm_compute. exact I.
Defined.

(** X2. For a post id that names nothing inherited from
    [Object.prototype] and under which nothing was ever stored,
    [fetchComments] resolves with the empty list, signals nothing, and
    leaves the store untouched: no empty array is created for the id. *)
Theorem fetchComments_none (postId : string) (s : Store) :
  plainId postId ->
  _stubComments s !! postId = None ->
  outcome (fetchComments postId) s = Resolved [] /\
  exec (fetchComments postId) s = s.
Proof.
  intros _ Hnone. rewrite outcome_fetchComments, exec_fetchComments.
  unfold commentsOf. by rewrite Hnone.
Qed.

Lemma fetchComments_none_witness :
  outcome (fetchComments "missing-id") rainStore = Resolved [] /\
  exec (fetchComments "missing-id") rainStore = rainStore.
Proof.
  apply (fetchComments_none "missing-id" rainStore).
  - apply (bool_decide_unpack _). vm_compute. exact I.
  - reflexivity.
Defined.

(** [fetchComments] called twice in a row resolves with the same list
    both times, and the second call leaves the store exactly as the first
    one left it. *)
Theorem fetchComments_twice (postId : string) (s : Store) :
  outcome (fetchComments postId) (exec (fetchComments postId) s)
    = outcome (fetchComments postId) s /\
  exec (fetchComments postId) (exec (fetchComments postId) s)
    = exec (fetchComments postId) s.
Proof.
  split.
  - rewrite !outcome_fetchComments, commentsOf_fetchComments, decide_True by done.
    by rewrite (js_sort_idempotent _ byCreatedAt_asym).
  - rewrite (exec_fetchComments postId (exec (fetchComments postId) s)).
    rewrite exec_fetchComments.
    destruct (_stubComments s !! postId) as [arr|] eqn:Harr; simpl.
    + rewrite lookup_insert_eq. simpl.
      rewrite (js_sort_idempotent _ byCreatedAt_asym).
      by rewrite insert_insert_eq.
    + by rewrite Harr.
Qed.


(** ** More on [toggleReaction] *)

Section toggle_more_facts.

Implicit Types (s : Store) (u v postId : string) (r k : Reaction) (p q : Post.t)
  (ps : list Post.t).

(** Writing through a slot a post with the id the slot had: [find] sees
    the same slot for every id. *)
Lemma findPost_insert_same_id postId ps (j : nat) old q :
  ps !! j = Some old -> Post.id q = Post.id old ->
  findPost postId (<[j := q]> ps) =
  match findPost postId ps with
  | Some (i, p) => Some (i, if decide (i = j) then q else p)
  | None => None
  end.
Proof.
  intros Hj Hq. unfold findPost.
  destruct (list_find (fun p => Post.id p = postId) ps) as [[i p]|] eqn:Hfind.
  - apply list_find_Some in Hfind as (Hi & Hid & Hbefore).
    apply list_find_Some. split_and!.
    + destruct (decide (i = j)) as [->|Hne].
      * apply list_lookup_insert_eq. by eapply lookup_lt_Some.
      * by rewrite list_lookup_insert_ne.
    + destruct (decide (i = j)) as [->|Hne]; [|done].
      rewrite Hi in Hj. injection Hj as <-. by rewrite Hq.
    + intros m y Hm Hlt. destruct (decide (j = m)) as [->|Hne].
      * rewrite list_lookup_insert_eq in Hm by (by eapply lookup_lt_Some).
        injection Hm as <-. rewrite Hq. by eapply Hbefore.
      * rewrite list_lookup_insert_ne in Hm by done. by eapply Hbefore.
  - apply list_find_None in Hfind. apply list_find_None.
    apply Forall_insert; [done|].
    rewrite Hq. eapply Forall_lookup_1 in Hfind; [|exact Hj]. done.
Qed.

Lemma react_setCommentCount u r c p :
  react u r (Post.setCommentCount c p) = Post.setCommentCount c (react u r p).
Proof.
  unfold react. destruct r; simpl; repeat case_bool_decide; reflexivity.
Qed.

Lemma filter_others_snoc u (l : list string) :
  filter (fun id => id ≠ u) (l ++ [u]) = filter (fun id => id ≠ u) l.
Proof.
  rewrite filter_app, filter_cons_False, filter_nil, app_nil_r by tauto.
  done.
Qed.

Lemma filter_others_idem u (l : list string) :
  filter (fun id => id ≠ u) (filter (fun id => id ≠ u) l)
  = filter (fun id => id ≠ u) l.
Proof.
  induction l as [|x l IH]; [done|].
  destruct (decide (x = u)) as [->|Hne].
  - by rewrite filter_cons_False by tauto.
  - rewrite filter_cons_True by done. rewrite filter_cons_True by done.
    by rewrite IH.
Qed.

(** The ids of the users other than [u], in their order, are the same
    before and after a toggle by [u], in both arrays. *)
Lemma react_others u r p k :
  filter (fun id => id ≠ u) (Post.getBy k (react u r p))
  = filter (fun id => id ≠ u) (Post.getBy k p).
Proof.
  assert (filter (fun id => id ≠ u) (Post.getBy r (react u r p))
          = filter (fun id => id ≠ u) (Post.getBy r p) /\
          filter (fun id => id ≠ u) (Post.getBy (other r) (react u r p))
          = filter (fun id => id ≠ u) (Post.getBy (other r) p)) as [Ht Ho].
  { destruct (react_cases u r p)
      as [(_ & -> & _ & -> & _)
         |[(_ & _ & -> & _ & -> & _)|(_ & _ & -> & _ & -> & _)]];
      by rewrite ?filter_others_idem, ?filter_others_snoc. }
  destruct r, k; simpl in *; done.
Qed.

End toggle_more_facts.

(** X5. First reaction: when the user is in neither set of a post present
    in the store, [toggleReaction] appends the user to the array of the
    kind and adds one to its counter; the array and the counter of the
    other kind are unchanged. *)
Theorem toggleReaction_first_reaction
    (s : Store) (postId u : string) (r : Reaction) (p : Post.t) :
  getPost postId s = Some p ->
  u ∉ Post.likedBy p ->
  u ∉ Post.dislikedBy p ->
  exists p',
    getPost postId (exec (toggleReaction postId u r) s) = Some p' /\
    Post.getBy r p' = Post.getBy r p ++ [u] /\
    Post.getCount r p' = Post.getCount r p + 1 /\
    Post.getBy (other r) p' = Post.getBy (other r) p /\
    Post.getCount (other r) p' = Post.getCount (other r) p.
Proof.
  intros Hp Hl Hd. exists (react u r p).
  split; [by apply toggleReaction_getPost|].
  destruct (react_cases u r p)
    as [(Hin & _)|[(_ & Hin & _)|(_ & _ & H)]]; [| |exact H];
    destruct r; simpl in Hin; done.
Qed.

(** X6. Un-react: when the user is in the array of the kind,
    [toggleReaction] removes every occurrence of the user from it and
    takes one from its counter, never going below zero; the array and the
    counter of the other kind are not touched. *)
Theorem toggleReaction_unreact
    (s : Store) (postId u : string) (r : Reaction) (p : Post.t) :
  getPost postId s = Some p ->
  u ∈ Post.getBy r p ->
  exists p',
    getPost postId (exec (toggleReaction postId u r) s) = Some p' /\
    Post.getBy r p' = filter (fun id => id ≠ u) (Post.getBy r p) /\
    (u ∉ Post.getBy r p') /\
    Post.getCount r p' = 0 `max` (Post.getCount r p - 1) /\
    Post.getBy (other r) p' = Post.getBy (other r) p /\
    Post.getCount (other r) p' = Post.getCount (other r) p.
Proof.
  intros Hp Hin. exists (react u r p).
  split; [by apply toggleReaction_getPost|].
  destruct (react_cases u r p)
    as [(_ & Hby & Hc & Ho & Hoc)|[(Hnin & _)|(Hnin & _)]]; [|done|done].
  split_and!; try done.
  rewrite Hby, list_elem_of_filter. tauto.
Qed.

(** X7. A toggle by one user does not touch the reactions of the others:
    in every post of the store, the other users' ids are in [likedBy] and
    in [dislikedBy] as before, in the same order. *)
Theorem toggleReaction_other_users
    (s : Store) (postId u : string) (r : Reaction) (j : nat) (p : Post.t) :
  _stubPosts s !! j = Some p ->
  exists p',
    _stubPosts (exec (toggleReaction postId u r) s) !! j = Some p' /\
    filter (fun id => id ≠ u) (Post.likedBy p')
      = filter (fun id => id ≠ u) (Post.likedBy p) /\
    filter (fun id => id ≠ u) (Post.dislikedBy p')
      = filter (fun id => id ≠ u) (Post.dislikedBy p).
Proof.
  intros Hj.
  destruct (toggleReaction_lookup postId u r s j p Hj) as [Hsame|[_ Hnew]].
  - by exists p.
  - exists (react u r p). split; [done|].
    split; [apply (react_others u r p like)|apply (react_others u r p dislike)].
Qed.

(** X8. Toggles on two different posts are independent: done in either
    order they leave the same store. *)
Theorem toggleReaction_commute
    (s : Store) (postId1 postId2 u1 u2 : string) (r1 r2 : Reaction) :
  postId1 ≠ postId2 ->
  exec (toggleReaction postId1 u1 r1) (exec (toggleReaction postId2 u2 r2) s)
  = exec (toggleReaction postId2 u2 r2) (exec (toggleReaction postId1 u1 r1) s).
Proof.
  intros Hne.
  rewrite (exec_toggleReaction postId1 u1 r1 (exec _ s)).
  rewrite (exec_toggleReaction postId2 u2 r2 (exec _ s)).
  rewrite !exec_toggleReaction.
  destruct (findPost postId1 (_stubPosts s)) as [[i1 p1]|] eqn:H1;
    destruct (findPost postId2 (_stubPosts s)) as [[i2 p2]|] eqn:H2; simpl;
    rewrite ?H1, ?H2; try done.
  - pose proof (findPost_Some _ _ _ _ H1) as [Hi1 Hid1].
    pose proof (findPost_Some _ _ _ _ H2) as [Hi2 Hid2].
    assert (i1 ≠ i2) as Hi.
    { intros ->. rewrite Hi1 in Hi2. injection Hi2 as ->. congruence. }
    rewrite (findPost_insert_same_id postId1 _ i2 p2) by (done || apply react_id).
    rewrite (findPost_insert_same_id postId2 _ i1 p1) by (done || apply react_id).
    rewrite H1, H2, !decide_False by done. simpl.
    by rewrite list_insert_insert_ne.
  - pose proof (findPost_Some _ _ _ _ H1) as [Hi1 Hid1].
    rewrite (findPost_insert_same_id postId2 _ i1 p1) by (done || apply react_id).
    by rewrite H2.
  - pose proof (findPost_Some _ _ _ _ H2) as [Hi2 Hid2].
    rewrite (findPost_insert_same_id postId1 _ i2 p2) by (done || apply react_id).
    by rewrite H1.
Qed.

(** X9. Reactions and comments are independent: a [toggleReaction] and an
    [addComment], on the same post or on different ones, leave the same
    store whichever comes first. *)
Theorem toggleReaction_addComment_commute
    (s : Store) (postId postId' u : string) (r : Reaction)
    (now : Z) (comment : CommentDraft.t) :
  exec (addComment now postId comment) (exec (toggleReaction postId' u r) s)
  = exec (toggleReaction postId' u r) (exec (addComment now postId comment) s).
Proof.
  rewrite (exec_addComment now postId comment (exec _ s)).
  rewrite (exec_toggleReaction postId' u r (exec _ s)).
  assert (pushed now postId comment (exec (toggleReaction postId' u r) s)
          = pushed now postId comment s) as ->.
  { unfold pushed, commentsOf. by rewrite toggleReaction_comments. }
  rewrite toggleReaction_comments.
  rewrite exec_toggleReaction, exec_addComment.
  set (n := Z.of_nat (length (pushed now postId comment s))).
  destruct (findPost postId (_stubPosts s)) as [[i p]|] eqn:Hc;
    destruct (findPost postId' (_stubPosts s)) as [[i' p']|] eqn:Ht; simpl;
    rewrite ?Hc, ?Ht; try done.
  - pose proof (findPost_Some _ _ _ _ Hc) as [Hi Hid].
    pose proof (findPost_Some _ _ _ _ Ht) as [Hi' Hid'].
    rewrite (findPost_insert_same_id postId _ i' p') by (done || apply react_id).
    rewrite (findPost_insert_same_id postId' _ i p) by done.
    rewrite Hc, Ht. simpl. f_equal.
    destruct (decide (i = i')) as [->|Hne].
    + rewrite Hi in Hi'. injection Hi' as ->.
      rewrite decide_True by done.
      by rewrite !list_insert_insert_eq, react_setCommentCount.
    + rewrite decide_False by done.
      by rewrite list_insert_insert_ne.
  - pose proof (findPost_Some _ _ _ _ Hc) as [Hi Hid].
    rewrite (findPost_insert_same_id postId' _ i p) by done.
    by rewrite Ht.
  - pose proof (findPost_Some _ _ _ _ Ht) as [Hi' Hid'].
    rewrite (findPost_insert_same_id postId _ i' p') by (done || apply react_id).
    by rewrite Hc.
Qed.


Lemma toggleReaction_first_reaction_witness :
  exists p',
    getPost "post_1000" (exec (toggleReaction "post_1000" "u2" dislike) rainStore)
      = Some p' /\
    Post.getBy dislike p' = Post.getBy dislike rainPost ++ ["u2"] /\
    Post.getCount dislike p' = Post.getCount dislike rainPost + 1 /\
    Post.getBy (other dislike) p' = Post.getBy (other dislike) rainPost /\
    Post.getCount (other dislike) p' = Post.getCount (other dislike) rainPost.
Proof.
  apply (toggleReaction_first_reaction rainStore "post_1000" "u2" dislike rainPost).
  - reflexivity.
  - apply not_elem_of_nil.
  - apply not_elem_of_nil.
Defined.

Lemma toggleReaction_unreact_witness :
  exists p',
    getPost "post_1000" (exec (toggleReaction "post_1000" "u2" dislike) dislikedStore)
      = Some p' /\
    Post.getBy dislike p'
      = filter (fun id => id ≠ "u2") (Post.getBy dislike (react "u2" dislike rainPost)) /\
    ("u2" ∉ Post.getBy dislike p') /\
    Post.getCount dislike p'
      = 0 `max` (Post.getCount dislike (react "u2" dislike rainPost) - 1) /\
    Post.getBy (other dislike) p'
      = Post.getBy (other dislike) (react "u2" dislike rainPost) /\
    Post.getCount (other dislike) p'
      = Post.getCount (other dislike) (react "u2" dislike rainPost).
Proof.
  apply (toggleReaction_unreact dislikedStore "post_1000" "u2" dislike).
  - reflexivity.
  - apply list_elem_of_here.
Defined.

Lemma toggleReaction_other_users_witness :
  exists p',
    _stubPosts (exec (toggleReaction "post_1000" "u7" like) dislikedStore) !! 0%nat
      = Some p' /\
    filter (fun id => id ≠ "u7") (Post.likedBy p')
      = filter (fun id => id ≠ "u7") (Post.likedBy (react "u2" dislike rainPost)) /\
    filter (fun id => id ≠ "u7") (Post.dislikedBy p')
      = filter (fun id => id ≠ "u7") (Post.dislikedBy (react "u2" dislike rainPost)).
Proof.
  apply (toggleReaction_other_users dislikedStore "post_1000" "u7" like 0).
  reflexivity.
Defined.

Lemma toggleReaction_commute_witness :
  exec (toggleReaction "post_1000" "u2" like)
    (exec (toggleReaction "post_1005" "u3" dislike)
       (exec (createPost 1005 (draftAt 1005)) rainStore))
  = exec (toggleReaction "post_1005" "u3" dislike)
      (exec (toggleReaction "post_1000" "u2" like)
         (exec (createPost 1005 (draftAt 1005)) rainStore)).
Proof.
  apply (toggleReaction_commute
           (exec (createPost 1005 (draftAt 1005)) rainStore)
           "post_1000" "post_1005" "u2" "u3" like dislike).
  discriminate.
Defined.

(** ** More on [createPost] and the feed *)

Section create_more_facts.

Implicit Types (s : Store) (ops : list Op).

Lemma step_ids op s :
  Post.id <$> _stubPosts (step op s) =
  match op with
  | OpCreatePost now _ => postIdAt now :: (Post.id <$> _stubPosts s)
  | _ => Post.id <$> _stubPosts s
  end.
Proof.
  destruct op as [now d|postId u r|now postId c]; cbn [step].
  - by rewrite exec_createPost.
  - apply toggleReaction_ids.
  - apply addComment_ids.
Qed.

Lemma run_ids ops s :
  Post.id <$> _stubPosts (run ops s)
  = (postIdAt <$> reverse (createClocks ops)) ++ (Post.id <$> _stubPosts s).
Proof.
  revert s. induction ops as [|op ops IH]; intros s; [done|].
  change (run (op :: ops) s) with (run ops (step op s)).
  rewrite IH, step_ids. destruct op as [now d|postId u r|now postId c]; try done.
  change (createClocks (OpCreatePost now d :: ops)) with (now :: createClocks ops).
  rewrite reverse_cons, fmap_app, <- app_assoc. done.
Qed.

End create_more_facts.

(** X10. The newest post shows first: when the draft's [createdAt] is not
    before that of any stored post, the [fetchPosts] that follows
    [createPost] resolves with the new post, under the id [createPost]
    returned, followed by exactly what [fetchPosts] resolved with before. *)
Theorem createPost_newest_first (now : Z) (post : PostDraft.t) (s : Store) :
  (forall p, p ∈ _stubPosts s -> Post.createdAt p <= PostDraft.createdAt post) ->
  exists id before,
    outcome (createPost now post) s = Resolved id /\
    outcome fetchPosts s = Resolved before /\
    outcome fetchPosts (exec (createPost now post) s)
      = Resolved (PostDraft.withId id post :: before).
Proof.
  intros Hnewest. eexists _, _. split; [reflexivity|]. split; [reflexivity|].
  rewrite exec_createPost.
  unfold outcome, fetchPosts, bind, readPosts, resolve; simpl. f_equal.
  set (cmp := fun a b : Post.t => Post.createdAt b - Post.createdAt a).
  pose proof (js_sort_perm cmp (_stubPosts s)) as Hperm.
  destruct (js_sort cmp (_stubPosts s)) as [|y l] eqn:Hsorted; [done|].
  simpl. rewrite decide_False; [done|].
  assert (y ∈ _stubPosts s) as Hy by (rewrite <- Hperm; apply list_elem_of_here).
  apply Hnewest in Hy. unfold cmp. simpl. lia.
Qed.

Lemma createPost_newest_first_witness :
  exists id before,
    outcome (createPost 1005 (draftAt 1005)) rainStore = Resolved id /\
    outcome fetchPosts rainStore = Resolved before /\
    outcome fetchPosts (exec (createPost 1005 (draftAt 1005)) rainStore)
      = Resolved (PostDraft.withId id (draftAt 1005) :: before).
Proof.
  apply (createPost_newest_first 1005 (draftAt 1005) rainStore).
  intros p Hp. apply list_elem_of_singleton in Hp as ->. discriminate.
Defined.

(** X11. The store lists the posts in the reverse order of their creation,
    each under the id minted from the clock reading of its [createPost]:
    after any sequence of operations from the empty store, the ids of
    [_stubPosts] are the ids of the clock readings, last created first.
    No operation removes a post or changes an id. *)
Theorem run_post_ids (ops : list Op) :
  Post.id <$> _stubPosts (run ops initialStore)
  = postIdAt <$> reverse (createClocks ops).
Proof. rewrite run_ids. simpl. by rewrite app_nil_r. Qed.

(** X12. When the [createPost] calls of a sequence read pairwise distinct
    clock values, the posts of the resulting store have pairwise distinct
    ids. *)
Theorem distinct_clocks_distinct_ids (ops : list Op) :
  NoDup (createClocks ops) ->
  NoDup (Post.id <$> _stubPosts (run ops initialStore)).
Proof.
  intros Hclocks. rewrite run_ids. simpl. rewrite app_nil_r.
  apply NoDup_fmap_2; [intros a b; apply postIdAt_inj|].
  by rewrite reverse_Permutation.
Qed.

Lemma distinct_clocks_distinct_ids_witness :
  NoDup
    (Post.id
       <$> _stubPosts
             (run [OpCreatePost 1000 rainAdvice;
                   OpToggleReaction "post_1000" "u2" like;
                   OpCreatePost 1005 (draftAt 1005)] initialStore)).
Proof.
  apply (distinct_clocks_distinct_ids
           [OpCreatePost 1000 rainAdvice;
            OpToggleReaction "post_1000" "u2" like;
            OpCreatePost 1005 (draftAt 1005)]).
  vm_compute. apply NoDup_cons. split.
  - intros Hin. apply list_elem_of_singleton in Hin. discriminate.
  - apply NoDup_singleton.
Defined.

(** X13. On a post present in the store whose [commentCount] is the number
    of comments stored for it, [addComment] raises [commentCount] by
    exactly one and touches no other field of the post. *)
Theorem addComment_increments
    (now : Z) (postId : string) (comment : CommentDraft.t) (s : Store) (p : Post.t) :
  getPost postId s = Some p ->
  Post.commentCount p = Z.of_nat (length (commentsOf postId s)) ->
  getPost postId (exec (addComment now postId comment) s)
  = Some (Post.setCommentCount (Post.commentCount p + 1) p).
Proof.
  intros Hp Hcount. unfold getPost in *. rewrite exec_addComment. simpl.
  destruct (findPost postId (_stubPosts s)) as [[i q]|] eqn:Hfind; [|done].
  simpl in Hp. injection Hp as ->.
  erewrite findPost_insert; [|done|by apply findPost_Some in Hfind as [_ ?]].
  simpl. do 2 f_equal. unfold pushed. rewrite length_app, Hcount. simpl. lia.
Qed.

Lemma addComment_increments_witness :
  getPost "post_1000" (exec (addComment 1004 "post_1000" niceTip) rainStore)
  = Some (Post.setCommentCount (Post.commentCount rainPost + 1) rainPost).
Proof.
  apply (addComment_increments 1004 "post_1000" niceTip rainStore rainPost);
    reflexivity.
Defined.

(** ** What the handlers of the screen do to the store *)

Section handler_facts.

Implicit Types (s : Store) (p : Post.t).

Lemma exec_submit_eq createdAt now userId userName title desc media s :
  exec (submit createdAt now userId userName title desc media) s =
  if decide (trim title = "") then s
  else mkStore
         (submitted createdAt now userId userName title desc media :: _stubPosts s)
         (_stubComments s).
Proof.
  unfold submit. case_decide; [done|].
  by destruct media as [[uri ty]|].
Qed.

Lemma outcome_submit createdAt now userId userName title desc media s :
  outcome (submit createdAt now userId userName title desc media) s
  = Resolved tt.
Proof.
  unfold submit. case_decide; [done|].
  by destruct media as [[uri ty]|].
Qed.

Lemma exec_send_eq createdAt now postId userId userName text s :
  exec (send createdAt now postId userId userName text) s =
  if decide (trim text = "") then s
  else exec (fetchComments postId)
         (exec (addComment now postId
                  (CommentDraft.mk userId userName (trim text) createdAt)) s).
Proof.
  unfold send. case_decide; [done|].
  unfold exec, addComment, fetchComments, bind, readComments, writeComments,
    readPosts, resolve; simpl.
  destruct (findPost postId (_stubPosts s)) as [[i p]|];
    unfold writePosts; simpl; by rewrite lookup_insert_eq.
Qed.

Lemma sameContent_refl p : sameContent p p.
Proof. repeat split. Qed.

Lemma sameContent_trans p1 p2 p3 :
  sameContent p1 p2 -> sameContent p2 p3 -> sameContent p1 p3.
Proof. unfold sameContent. intros H1 H2. destruct_and!. split_and!; congruence. Qed.

Lemma Forall2_sameContent_refl (ps : list Post.t) : Forall2 sameContent ps ps.
Proof. induction ps; constructor; [apply sameContent_refl|done]. Qed.

Lemma Forall2_sameContent_insert (ps : list Post.t) (i : nat) p q :
  ps !! i = Some p -> sameContent p q ->
  Forall2 sameContent ps (<[i := q]> ps).
Proof.
  intros Hi Hpq. rewrite <- (list_insert_id ps i p Hi) at 1.
  apply Forall2_insert; [apply Forall2_sameContent_refl|done].
Qed.

Lemma Forall2_sameContent_trans (l1 l2 l3 : list Post.t) :
  Forall2 sameContent l1 l2 -> Forall2 sameContent l2 l3 ->
  Forall2 sameContent l1 l3.
Proof.
  intros H12. revert l3. induction H12 as [|x y l1 l2 Hxy H12 IH]; intros l3 H23.
  - by inversion H23.
  - inversion H23 as [|? z ? l3' Hyz H23']; subst. constructor.
    + by eapply sameContent_trans.
    + by apply IH.
Qed.

Lemma react_sameContent u r p : sameContent p (react u r p).
Proof.
  pose proof (react_sameFrame u r p) as H. unfold sameFrame, sameContent in *.
  tauto.
Qed.

Lemma toggleReaction_keeps postId u r s :
  Forall2 sameContent (_stubPosts s)
    (_stubPosts (exec (toggleReaction postId u r) s)).
Proof.
  rewrite exec_toggleReaction.
  destruct (findPost postId (_stubPosts s)) as [[i p]|] eqn:Hfind;
    [|apply Forall2_sameContent_refl].
  apply findPost_Some in Hfind as [Hi _]. simpl.
  eapply Forall2_sameContent_insert; [done|apply react_sameContent].
Qed.

Lemma addComment_keeps now postId c s :
  Forall2 sameContent (_stubPosts s)
    (_stubPosts (exec (addComment now postId c) s)).
Proof.
  rewrite exec_addComment. simpl.
  destruct (findPost postId (_stubPosts s)) as [[i p]|] eqn:Hfind;
    [|apply Forall2_sameContent_refl].
  apply findPost_Some in Hfind as [Hi _].
  eapply Forall2_sameContent_insert; [done|]. repeat split.
Qed.

(** One event: the posts there were are still there, in their order,
    behind at most one new post. *)
Lemma handle_keeps_posts ev s :
  exists added kept,
    _stubPosts (handle ev s) = added ++ kept /\
    Forall2 sameContent (_stubPosts s) kept.
Proof.
  destruct ev as [t now uid un ti de me|t now pid uid un tx|pid uid r]; simpl.
  - rewrite exec_submit_eq. case_decide.
    + exists [], (_stubPosts s). split; [done|apply Forall2_sameContent_refl].
    + eexists [_], (_stubPosts s). split; [done|apply Forall2_sameContent_refl].
  - rewrite exec_send_eq. case_decide.
    + exists [], (_stubPosts s). split; [done|apply Forall2_sameContent_refl].
    + exists [],
        (_stubPosts
           (exec (addComment now pid (CommentDraft.mk uid un (trim tx) t)) s)).
      split; [by rewrite fetchComments_posts|apply addComment_keeps].
  - rewrite exec_handleReact.
    exists [], (_stubPosts (exec (toggleReaction pid uid r) s)).
    split; [done|apply toggleReaction_keeps].
Qed.

Lemma handle_comments ev s postId :
  exists added,
    commentsOf postId (handle ev s) ≡ₚ commentsOf postId s ++ added.
Proof.
  destruct ev as [t now uid un ti de me|t now pid uid un tx|pid uid r]; simpl.
  - exists []. rewrite exec_submit_eq, app_nil_r. by case_decide.
  - rewrite exec_send_eq. case_decide; [exists []; by rewrite app_nil_r|].
    rewrite commentsOf_fetchComments.
    destruct (decide (pid = postId)) as [->|Hne].
    + exists [CommentDraft.withId (commentIdAt now)
                (CommentDraft.mk uid un (trim tx) t)].
      rewrite js_sort_perm, commentsOf_addComment.
      by rewrite decide_True by done.
    + exists []. rewrite commentsOf_addComment, decide_False, app_nil_r by done.
      done.
  - exists []. rewrite exec_handleReact, app_nil_r.
    unfold commentsOf. by rewrite toggleReaction_comments.
Qed.

End handler_facts.

Section trim_facts.

Lemma append_cons c (s1 s2 : string) :
  String c s1 +:+ s2 = String c (s1 +:+ s2).
Proof. reflexivity. Qed.

Lemma append_empty_r (s : string) : s +:+ "" = s.
Proof. induction s as [|c s IH]; [done|]. by rewrite append_cons, IH. Qed.

Lemma append_assoc (s1 s2 s3 : string) :
  (s1 +:+ s2) +:+ s3 = s1 +:+ (s2 +:+ s3).
Proof. induction s1 as [|c s1 IH]; [done|]. by rewrite !append_cons, IH. Qed.

Lemma rev_app_append (s1 s2 : string) :
  String.rev_app s1 s2 = String.rev s1 +:+ s2.
Proof.
  unfold String.rev. revert s2.
  induction s1 as [|c s1 IH]; intros s2; [done|].
  simpl. rewrite (IH (String c s2)), (IH (String c "")).
  by rewrite append_assoc.
Qed.

Lemma rev_cons c (s : string) :
  String.rev (String c s) = String.rev s +:+ String c "".
Proof. unfold String.rev at 1. simpl. apply rev_app_append. Qed.

Lemma rev_append (s1 s2 : string) :
  String.rev (s1 +:+ s2) = String.rev s2 +:+ String.rev s1.
Proof.
  induction s1 as [|c s1 IH].
  - by rewrite append_empty_r.
  - by rewrite append_cons, !rev_cons, IH, append_assoc.
Qed.

Lemma rev_involutive (s : string) : String.rev (String.rev s) = s.
Proof.
  induction s as [|c s IH]; [done|].
  by rewrite rev_cons, rev_append, IH.
Qed.

Lemma trimStart_headOk (s : string) : headOk (trimStart s).
Proof.
  induction s as [|c s IH]; [done|].
  simpl. by destruct (is_js_space c) eqn:Hc.
Qed.

Lemma trimStart_id (s : string) : headOk s -> trimStart s = s.
Proof. destruct s as [|c s]; [done|]. simpl. by intros ->. Qed.

Lemma trimStart_suffix (s : string) : exists w, s = w +:+ trimStart s.
Proof.
  induction s as [|c s [w IH]]; [by exists ""|].
  simpl. destruct (is_js_space c).
  - exists (String c w). by rewrite append_cons, <- IH.
  - by exists "".
Qed.

Lemma headOk_prefix (s1 s2 : string) : headOk (s1 +:+ s2) -> headOk s1.
Proof. by destruct s1. Qed.

(** What [trim] returns has no white space left at either end. *)
Lemma trim_idempotent (s : string) : trim (trim s) = trim s.
Proof.
  unfold trim.
  pose proof (trimStart_headOk s) as Ht.
  destruct (trimStart_suffix (String.rev (trimStart s))) as [w Hw].
  set (u := trimStart (String.rev (trimStart s))) in *.
  assert (headOk (String.rev u)) as Hu.
  { apply (headOk_prefix _ (String.rev w)).
    by rewrite <- rev_append, <- Hw, rev_involutive. }
  rewrite (trimStart_id (String.rev u)) by done.
  rewrite rev_involutive.
  by rewrite (trimStart_id u) by apply trimStart_headOk.
Qed.

End trim_facts.

Section screen_strings_facts.

(** Whatever holds of every non-empty trimmed string holds of every
    title and every comment text the screen stores, and whatever holds of
    every trimmed string holds of every description. *)
Lemma screen_strings (T D : string -> Prop) (evs : list Event) :
  (forall x, trim x ≠ "" -> T (trim x)) ->
  (forall x, D (trim x)) ->
  (forall p, p ∈ _stubPosts (runEvents evs initialStore) ->
     T (Post.title p) /\ D (Post.description p)) /\
  (forall postId c,
     c ∈ commentsOf postId (runEvents evs initialStore) -> T (Comment.text c)).
Proof.
  intros HT HD.
  assert (forall s,
            (forall p, p ∈ _stubPosts s ->
               T (Post.title p) /\ D (Post.description p)) /\
            (forall postId c, c ∈ commentsOf postId s -> T (Comment.text c)) ->
            (forall p, p ∈ _stubPosts (runEvents evs s) ->
               T (Post.title p) /\ D (Post.description p)) /\
            (forall postId c,
               c ∈ commentsOf postId (runEvents evs s) -> T (Comment.text c)))
    as Hgen.
  { induction evs as [|ev evs IH]; intros s Hs; [done|].
    change (runEvents (ev :: evs) s) with (runEvents evs (handle ev s)).
    apply IH. destruct Hs as [Hposts Hcomments]. split.
    - intros p Hp.
      destruct ev as [t now uid un ti de me|t now pid uid un tx|pid uid r];
        simpl in Hp.
      + rewrite exec_submit_eq in Hp. case_decide; [by apply Hposts|].
        simpl in Hp. apply elem_of_cons in Hp as [->|Hp]; [|by apply Hposts].
        simpl. split; [by apply HT|apply HD].
      + rewrite exec_send_eq in Hp. case_decide; [by apply Hposts|].
        rewrite fetchComments_posts in Hp.
        apply list_elem_of_lookup in Hp as [j Hj].
        apply addComment_lookup in Hj as (q & Hq & [->|[_ ->]]).
        * eapply Hposts, list_elem_of_lookup_2, Hq.
        * simpl. eapply Hposts, list_elem_of_lookup_2, Hq.
      + rewrite exec_handleReact in Hp.
        apply list_elem_of_lookup in Hp as [j Hj].
        assert (exists q, _stubPosts s !! j = Some q) as [q Hq].
        { apply lookup_lt_is_Some. rewrite <- (toggleReaction_length pid uid r).
          by eapply lookup_lt_Some. }
        assert (Post.title p = Post.title q /\
                Post.description p = Post.description q) as [-> ->].
        { destruct (toggleReaction_lookup pid uid r s j q Hq) as [Hsame|[_ Hnew]].
          - rewrite Hsame in Hj. by injection Hj as <-.
          - rewrite Hnew in Hj. injection Hj as <-.
            pose proof (react_sameFrame uid r q) as Hf. unfold sameFrame in Hf.
            tauto. }
        eapply Hposts, list_elem_of_lookup_2, Hq.
    - intros postId c Hc.
      destruct ev as [t now uid un ti de me|t now pid uid un tx|pid uid r];
        simpl in Hc.
      + rewrite exec_submit_eq in Hc. case_decide; by eapply Hcomments.
      + rewrite exec_send_eq in Hc. case_decide; [by eapply Hcomments|].
        rewrite commentsOf_fetchComments in Hc.
        destruct (decide (pid = postId)) as [->|Hne].
        * rewrite js_sort_perm, commentsOf_addComment, decide_True in Hc by done.
          unfold pushed in Hc. apply elem_of_app in Hc as [Hc|Hc];
            [by eapply Hcomments|].
          apply list_elem_of_singleton in Hc as ->. simpl. by apply HT.
        * rewrite commentsOf_addComment, decide_False in Hc by done.
          by eapply Hcomments.
      + rewrite exec_handleReact in Hc. unfold commentsOf in Hc.
        rewrite toggleReaction_comments in Hc. by eapply Hcomments. }
  apply Hgen. split.
  - intros p Hp. by apply not_elem_of_nil in Hp.
  - intros postId c Hc. by apply not_elem_of_nil in Hc.
Qed.

End screen_strings_facts.

(** X14. The screen stores trimmed text only: in every store built from
    the empty one by [submit], [send] and [handleReact], no title, no
    description and no comment text has white space left at either end
    ([trim] gives it back unchanged). *)
Theorem screen_texts_trimmed (evs : list Event) :
  (forall p, p ∈ _stubPosts (runEvents evs initialStore) ->
     trim (Post.title p) = Post.title p /\
     trim (Post.description p) = Post.description p) /\
  (forall postId c,
     c ∈ commentsOf postId (runEvents evs initialStore) ->
     trim (Comment.text c) = Comment.text c).
Proof.
  apply (screen_strings (fun x => trim x = x) (fun x => trim x = x)).
  - intros x _. apply trim_idempotent.
  - apply trim_idempotent.
Qed.

(** X15. Posts are never deleted and their content never changes: after
    any sequence of [submit], [send] and [handleReact], the store holds
    the posts it held, in the same order, behind the posts added since;
    each has the [id], author, [title], [description], media reference
    and [createdAt] it had. *)
Theorem posts_never_deleted (evs : list Event) (s : Store) :
  exists added kept,
    _stubPosts (runEvents evs s) = added ++ kept /\
    Forall2 sameContent (_stubPosts s) kept.
Proof.
  revert s. induction evs as [|ev evs IH]; intros s.
  - exists [], (_stubPosts s). split; [done|apply Forall2_sameContent_refl].
  - change (runEvents (ev :: evs) s) with (runEvents evs (handle ev s)).
    destruct (handle_keeps_posts ev s) as (added1 & kept1 & Heq1 & Hkept1).
    destruct (IH (handle ev s)) as (added2 & kept2 & Heq2 & Hkept2).
    rewrite Heq1 in Hkept2.
    apply Forall2_app_inv_l in Hkept2 as (k1 & k2 & Hk1 & Hk2 & ->).
    exists (added2 ++ k1), k2. split; [by rewrite Heq2, app_assoc|].
    by eapply Forall2_sameContent_trans.
Qed.

(** X16. Comments are never deleted or altered: after any sequence of
    [submit], [send] and [handleReact], the comments stored for a post id
    are those stored before together with the ones added since (their
    order in the store may have changed: [fetchComments] sorts in
    place). *)
Theorem comments_never_deleted (evs : list Event) (s : Store) (postId : string) :
  exists added,
    commentsOf postId (runEvents evs s) ≡ₚ commentsOf postId s ++ added.
Proof.
  revert s. induction evs as [|ev evs IH]; intros s.
  - exists []. by rewrite app_nil_r.
  - change (runEvents (ev :: evs) s) with (runEvents evs (handle ev s)).
    destruct (handle_comments ev s postId) as (added1 & H1).
    destruct (IH (handle ev s)) as (added2 & H2).
    exists (added1 ++ added2). by rewrite H2, H1, app_assoc.
Qed.

(** X17. The screen stores no post without a title and no comment without
    a text: in every store built from the empty one by [submit], [send]
    and [handleReact], every post has a non-empty [title] and every
    comment a non-empty [text]. *)
Theorem screen_titles_and_texts (evs : list Event) :
  (forall p, p ∈ _stubPosts (runEvents evs initialStore) -> Post.title p ≠ "") /\
  (forall postId c,
     c ∈ commentsOf postId (runEvents evs initialStore) -> Comment.text c ≠ "").
Proof.
  assert (forall s,
            (forall p, p ∈ _stubPosts s -> Post.title p ≠ "") /\
            (forall postId c, c ∈ commentsOf postId s -> Comment.text c ≠ "") ->
            (forall p, p ∈ _stubPosts (runEvents evs s) -> Post.title p ≠ "") /\
            (forall postId c,
               c ∈ commentsOf postId (runEvents evs s) -> Comment.text c ≠ ""))
    as Hgen.
  { induction evs as [|ev evs IH]; intros s Hs; [done|].
    change (runEvents (ev :: evs) s) with (runEvents evs (handle ev s)).
    apply IH. destruct Hs as [Hposts Hcomments]. split.
    - intros p Hp.
      destruct ev as [t now uid un ti de me|t now pid uid un tx|pid uid r];
        simpl in Hp.
      + rewrite exec_submit_eq in Hp. case_decide; [by apply Hposts|].
        simpl in Hp. apply elem_of_cons in Hp as [->|Hp]; [done|by apply Hposts].
      + rewrite exec_send_eq in Hp. case_decide; [by apply Hposts|].
        rewrite fetchComments_posts in Hp.
        apply list_elem_of_lookup in Hp as [j Hj].
        apply addComment_lookup in Hj as (q & Hq & [->|[_ ->]]).
        * eapply Hposts, list_elem_of_lookup_2, Hq.
        * simpl. eapply Hposts, list_elem_of_lookup_2, Hq.
      + rewrite exec_handleReact in Hp.
        apply list_elem_of_lookup in Hp as [j Hj].
        assert (exists q, _stubPosts s !! j = Some q) as [q Hq].
        { apply lookup_lt_is_Some. rewrite <- (toggleReaction_length pid uid r).
          by eapply lookup_lt_Some. }
        assert (Post.title p = Post.title q) as ->.
        { destruct (toggleReaction_lookup pid uid r s j q Hq) as [Hsame|[_ Hnew]].
          - rewrite Hsame in Hj. by injection Hj as <-.
          - rewrite Hnew in Hj. injection Hj as <-.
            pose proof (react_sameFrame uid r q) as Hf. unfold sameFrame in Hf.
            tauto. }
        eapply Hposts, list_elem_of_lookup_2, Hq.
    - intros postId c Hc.
      destruct ev as [t now uid un ti de me|t now pid uid un tx|pid uid r];
        simpl in Hc.
      + rewrite exec_submit_eq in Hc. case_decide; by eapply Hcomments.
      + rewrite exec_send_eq in Hc. case_decide; [by eapply Hcomments|].
        rewrite commentsOf_fetchComments in Hc.
        destruct (decide (pid = postId)) as [->|Hne].
        * rewrite js_sort_perm, commentsOf_addComment, decide_True in Hc by done.
          unfold pushed in Hc. apply elem_of_app in Hc as [Hc|Hc];
            [by eapply Hcomments|].
          apply list_elem_of_singleton in Hc as ->. done.
        * rewrite commentsOf_addComment, decide_False in Hc by done.
          by eapply Hcomments.
      + rewrite exec_handleReact in Hc. unfold commentsOf in Hc.
        rewrite toggleReaction_comments in Hc. by eapply Hcomments. }
  apply Hgen. split.
  - intros p Hp. by apply not_elem_of_nil in Hp.
  - intros postId c Hc. by apply not_elem_of_nil in Hc.
Qed.

(** ** [timeAgo] *)

(** X18. [timeAgo] rounds the age of a time stamp down to whole minutes,
    hours or days: under one minute (also for a time stamp in the future)
    it says "just now"; under one hour it gives the whole minutes, from 1
    to 59; under one day the whole hours, from 1 to 23; from one day on
    the whole days. It never shows 0 and never 60 minutes or 24 hours. *)
Theorem timeAgo_buckets (now ms : Z) :
  (now - ms < 60000 -> timeAgo now ms = "just now") /\
  (60000 <= now - ms < 3600000 ->
   exists m, 1 <= m <= 59 /\
             60000 * m <= now - ms < 60000 * (m + 1) /\
             timeAgo now ms = pretty m +:+ "m ago") /\
  (3600000 <= now - ms < 86400000 ->
   exists h, 1 <= h <= 23 /\
             3600000 * h <= now - ms < 3600000 * (h + 1) /\
             timeAgo now ms = pretty h +:+ "h ago") /\
  (86400000 <= now - ms ->
   exists d, 1 <= d /\
             86400000 * d <= now - ms < 86400000 * (d + 1) /\
             timeAgo now ms = pretty d +:+ "d ago").
Proof.
  unfold timeAgo. set (diff := now - ms).
  assert ((diff `div` 60000) `div` 60 = diff `div` 3600000) as Hh
    by (rewrite Z.div_div by lia; done).
  assert (((diff `div` 60000) `div` 60) `div` 24 = diff `div` 86400000) as Hd
    by (rewrite !Z.div_div by lia; done).
  pose proof (Z.div_mod diff 60000 ltac:(lia)) as Hm1.
  pose proof (Z.mod_pos_bound diff 60000 ltac:(lia)) as Hm2.
  pose proof (Z.div_mod diff 3600000 ltac:(lia)) as Hh1.
  pose proof (Z.mod_pos_bound diff 3600000 ltac:(lia)) as Hh2.
  pose proof (Z.div_mod diff 86400000 ltac:(lia)) as Hd1.
  pose proof (Z.mod_pos_bound diff 86400000 ltac:(lia)) as Hd2.
  rewrite Hd, Hh. split_and!.
  - intros Hlt. rewrite decide_True by lia. done.
  - intros Hrange. exists (diff `div` 60000).
    rewrite decide_False, decide_True by lia. split_and!; (done || lia).
  - intros Hrange. exists (diff `div` 3600000).
    rewrite decide_False, decide_False, decide_True by lia.
    split_and!; (done || lia).
  - intros Hrange. exists (diff `div` 86400000).
    rewrite decide_False, decide_False, decide_False by lia.
    split_and!; (done || lia).
Qed.

Example timeAgo_run :
  timeAgo 1000000 1000000 = "just now" /\
  timeAgo 1000000 1000001 = "just now" /\
  timeAgo 1059999 1000000 = "just now" /\
  timeAgo 1060000 1000000 = "1m ago" /\
  timeAgo 4599999 1000000 = "59m ago" /\
  timeAgo 4600000 1000000 = "1h ago" /\
  timeAgo 87400000 1000000 = "1d ago".
Proof. split_and!; reflexivity. Qed.

(** ** [initials] *)

Section initials_facts.

Implicit Types (s w r name : string) (c : Ascii.ascii).





Lemma splitSpaces_allSpaces s :
  allSpaces s -> Forall (fun w => w = "") (splitSpaces s).
Proof.
  induction s as [|c r IH]; simpl; intros Hs; [by constructor|].
  destruct Hs as [-> Hr]. rewrite decide_True by done.
  constructor; [done|by apply IH].
Qed.

Lemma length_toUpperCase s : String.length (toUpperCase s) = String.length s.
Proof. induction s; simpl; [done|by f_equal]. Qed.

Lemma length_append s1 s2 :
  String.length (s1 +:+ s2) = (String.length s1 + String.length s2)%nat.
Proof. induction s1; simpl; [done|by f_equal]. Qed.

Lemma length_firstChar w : (String.length (firstChar w) <= 1)%nat.
Proof. destruct w; simpl; lia. Qed.

Lemma length_joinAll_take2 (ws : list string) :
  (String.length (joinAll (take 2 (firstChar <$> ws))) <= 2)%nat.
Proof.
  destruct ws as [|w1 [|w2 ws]]; simpl; rewrite ?length_append; simpl.
  - lia.
  - pose proof (length_firstChar w1). lia.
  - pose proof (length_firstChar w1). pose proof (length_firstChar w2). lia.
Qed.

End initials_facts.

(** X19. [initials] never gives an empty label and never more than two
    characters: for a name of ASCII characters the result has one or two
    characters. *)
Theorem initials_length (name : string) :
  asciiOnly name ->
  (1 <= String.length (initials name) <= 2)%nat.
Proof.
  intros _. unfold initials.
  pose proof (length_joinAll_take2 (splitSpaces name)) as Hlen.
  rewrite <- length_toUpperCase in Hlen.
  case_decide as Hempty; simpl; [lia|].
  destruct (toUpperCase _) as [|c r]; [done|]. simpl in *. lia.
Qed.

Lemma initials_length_witness :
  (1 <= String.length (initials "ravi kumar nair") <= 2)%nat.
Proof.
  apply (initials_length "ravi kumar nair").
  vm_compute. repeat split; lia.
Defined.



(** X21. [initials] falls back to "?" when the first two pieces of the
    split are empty: for the empty name, for a name made of spaces only,
    and also for any name that starts with two spaces, whatever follows
    them. *)
Theorem initials_question_mark (name rest : string) :
  (allSpaces name -> initials name = "?") /\
  initials (String Ascii.Space (String Ascii.Space rest)) = "?".
Proof.
  split.
  - intros Hs. unfold initials.
    pose proof (splitSpaces_allSpaces name Hs) as Hall.
    destruct (splitSpaces name) as [|w1 [|w2 ws]]; [done| |].
    + apply Forall_cons in Hall as [-> _]. done.
    + apply Forall_cons in Hall as [-> Hall].
      apply Forall_cons in Hall as [-> _]. done.
  - reflexivity.
Qed.

Example initials_run :
  initials "" = "?" /\ initials "   " = "?" /\ initials "  Ravi" = "?" /\
  initials " Ravi Kumar" = "R" /\ initials "ravi  kumar" = "R" /\
  initials "Ravi Kumar" = "RK" /\ initials "u1" = "U".
Proof. split_and!; reflexivity. Qed.

(** ** The comment counter on the screen *)

Section screen_count_facts.

Implicit Types (s : Store) (p : Post.t).

Lemma storeInv_fetchComments postId s :
  storeInv s -> storeInv (exec (fetchComments postId) s).
Proof.
  intros [Hnd Hcc]. split; rewrite fetchComments_posts; [done|].
  intros p Hp. rewrite commentsOf_fetchComments.
  case_decide as Heq; [|by apply Hcc].
  rewrite js_sort_length, Heq. by apply Hcc.
Qed.

Lemma getPost_in_ids postId s p :
  getPost postId s = Some p -> postId ∈ (Post.id <$> _stubPosts s).
Proof.
  unfold getPost.
  destruct (findPost postId (_stubPosts s)) as [[i q]|] eqn:Hfind; [|done].
  intros _. apply findPost_Some in Hfind as [Hi <-].
  apply list_elem_of_fmap. exists q. split; [done|].
  by eapply list_elem_of_lookup_2.
Qed.

Lemma screen_invariant_handle ev s :
  screenOk s ev ->
  storeInv s /\ commentsCovered s ->
  storeInv (handle ev s) /\ commentsCovered (handle ev s).
Proof.
  intros Hok [Hinv Hcov].
  destruct ev as [t now uid un ti de me|t now pid uid un tx|pid uid r];
    simpl in *.
  - rewrite exec_submit_eq. case_decide as Hblank; [done|].
    destruct Hok as [Hok|Hfresh]; [done|].
    change (mkStore (submitted t now uid un ti de me :: _stubPosts s)
              (_stubComments s))
      with (exec (createPost now
                    (PostDraft.mk uid un (trim ti) (trim de) (fst <$> me)
                       (snd <$> me) 0 0 [] [] 0 t)) s).
    split.
    + apply storeInv_createPost; [|done]. split_and!; [by repeat split|done|].
      destruct (commentsOf (postIdAt now) s) as [|c cs] eqn:Hc; [done|].
      assert (postIdAt now ∈ Post.id <$> _stubPosts s) as Hin
        by (apply Hcov; by rewrite Hc).
      apply list_elem_of_fmap in Hin as (p & Hid & Hp).
      by destruct (Hfresh p Hp).
    + intros postId Hne. rewrite exec_createPost. simpl.
      apply elem_of_cons. right. by apply Hcov.
  - rewrite exec_send_eq. case_decide as Hblank; [done|].
    destruct Hok as [Hok|[p Hp]]; [done|]. split.
    + by apply storeInv_fetchComments, storeInv_addComment.
    + intros postId Hne. rewrite fetchComments_posts, addComment_ids.
      rewrite commentsOf_fetchComments in Hne.
      destruct (decide (pid = postId)) as [<-|Hdiff];
        [by eapply getPost_in_ids|].
      rewrite commentsOf_addComment, decide_False in Hne by done.
      by apply Hcov.
  - rewrite exec_handleReact. split.
    + by apply storeInv_toggleReaction.
    + intros postId Hne. rewrite toggleReaction_ids. apply Hcov.
      unfold commentsOf in *. by rewrite toggleReaction_comments in Hne.
Qed.

Lemma screen_invariant_run evs s :
  screenRunOk evs s ->
  storeInv s /\ commentsCovered s ->
  storeInv (runEvents evs s) /\ commentsCovered (runEvents evs s).
Proof.
  revert s. induction evs as [|ev evs IH]; intros s Hok Hs; [done|].
  destruct Hok as [Hev Hok].
  change (runEvents (ev :: evs) s) with (runEvents evs (handle ev s)).
  apply IH; [done|]. by apply screen_invariant_handle.
Qed.

End screen_count_facts.

(** X22. On the screen the comment counter is right: starting from the
    empty store, after any sequence of [submit], [send] and [handleReact]
    in which each post is submitted under an id no stored post has yet and
    each comment is sent for a post in the store, every post's
    [commentCount] is the number of comments [fetchComments] resolves with
    for its id, and the ids of the posts are pairwise distinct. *)
Theorem screen_commentCount (evs : list Event) :
  screenRunOk evs initialStore ->
  NoDup (Post.id <$> _stubPosts (runEvents evs initialStore)) /\
  forall p,
    p ∈ _stubPosts (runEvents evs initialStore) ->
    exists cs,
      outcome (fetchComments (Post.id p)) (runEvents evs initialStore)
        = Resolved cs /\
      Post.commentCount p = Z.of_nat (length cs).
Proof.
  intros Hok.
  destruct (screen_invariant_run evs initialStore Hok) as [[Hnd Hcc] _].
  { split; [apply storeInv_initial|]. intros postId Hne. by destruct Hne. }
  split; [done|]. intros p Hp.
  exists (js_sort byCreatedAt
            (commentsOf (Post.id p) (runEvents evs initialStore))).
  split; [apply outcome_fetchComments|].
  rewrite js_sort_length. by apply Hcc.
Qed.

Lemma screen_commentCount_witness :
  NoDup (Post.id <$> _stubPosts (runEvents screenEvents initialStore)) /\
  forall p,
    p ∈ _stubPosts (runEvents screenEvents initialStore) ->
    exists cs,
      outcome (fetchComments (Post.id p)) (runEvents screenEvents initialStore)
        = Resolved cs /\
      Post.commentCount p = Z.of_nat (length cs).
Proof.
  apply (screen_commentCount screenEvents).
  simpl. split_and!; try exact I.
  - right. intros p Hp. by apply not_elem_of_nil in Hp.
  - right. eexists. reflexivity.
  - right. intros p Hp. apply list_elem_of_singleton in Hp as ->. discriminate.
  - right. eexists. reflexivity.
Defined.

Example screen_run :
  (fun p => (Post.id p, Post.title p, Post.likeCount p, Post.commentCount p))
    <$> _stubPosts (runEvents screenEvents initialStore)
  = [("post_1005", "Seeds", 0, 0); ("post_1000", "Rain advice", 1, 2)] /\
  Comment.text <$> listComments "post_1000" (runEvents screenEvents initialStore)
  = ["Nice tip"; "Thanks"].
Proof. split; vm_compute; reflexivity. Qed.

(** ** Sign-in, sign-up and the session *)

Section session_facts.

Implicit Types (st : Storage) (getDocs : GetDocs) (addDoc : AddDoc).

Lemma toLowerCase_empty s : toLowerCase s = "" <-> s = "".
Proof. destruct s; simpl; split; intros H; done. Qed.

End session_facts.

Lemma persistLogin_cases (setItem : SetItem) (uid name email provider : string)
    (st : Storage) :
  (setItem "userLoggedIn" = None /\ setItem "userData" = None /\
   persistLogin setItem uid name email provider st
   = (None,
      mkStorage (Some "true")
        (Some (UserData.mk (Some uid) (Some name) (Some email) (Some provider)))))
  \/
  (exists e, setItem "userLoggedIn" = Some e /\
     persistLogin setItem uid name email provider st = (Some e, st))
  \/
  (exists e, setItem "userLoggedIn" = None /\ setItem "userData" = Some e /\
     persistLogin setItem uid name email provider st
     = (Some e, mkStorage (Some "true") (userData st))).
Proof.
  unfold persistLogin, setUserLoggedIn, setUserData.
  destruct (setItem "userLoggedIn") as [e1|]; [right; left; eauto|].
  destruct (setItem "userData") as [e2|]; [right; right; eauto|].
  left. done.
Qed.

Lemma loginAlert (e : Thrown.t) (st : Storage) :
  exists title message,
    (if decide (Thrown.code e = Some "NO_ACCOUNT") then
       ([ShowAlert "No Account Found"
           "No account registered with that email. Please sign up first."],
        st)
     else if decide (Thrown.code e = Some "WRONG_PASSWORD") then
       ([ShowAlert "Wrong Password"
           "The password you entered is incorrect. Please try again."],
        st)
     else
       ([ShowAlert "Login Failed"
           (orElse (Thrown.message e)
              "Something went wrong. Please try again.")],
        st))
    = ([ShowAlert title message], st).
Proof. repeat case_decide; eauto. Qed.

(** X23. What [handleLogin] does for an email of ASCII characters, in
    full. It replaces the route by "/" and leaves the session written
    exactly when the email is not blank, the password is not empty, the
    query on the trimmed, lower-cased email resolved with at least one
    document, the first document's [password] is the password typed, and
    both writes went through; the session then carries that document's
    id. When the write of "userLoggedIn" went through and the one of
    "userData" did not, it shows one alert and leaves "userLoggedIn" at
    "true" over the user data that were there. In every other case, also
    when the query throws, it shows one alert and leaves the storage as
    it was. *)
Theorem handleLogin_outcome
    (getDocs : GetDocs) (setItem : SetItem) (email password : string)
    (st : Storage) :
  asciiOnly email ->
  (exists id doc rest,
     trim email ≠ "" /\ password ≠ "" /\
     getDocs (toLowerCase (trim email)) = inr ((id, doc) :: rest) /\
     UserDoc.password doc = Some password /\
     setItem "userLoggedIn" = None /\ setItem "userData" = None /\
     handleLogin getDocs setItem email password st
     = ([RouterReplace "/"],
        mkStorage (Some "true")
          (Some (UserData.mk (Some id)
                   (Some (orElse (UserDoc.name doc) ""))
                   (Some (orElse (UserDoc.email doc) email))
                   (Some (orElse (UserDoc.provider doc) "email"))))))
  \/
  (exists id doc rest title message,
     trim email ≠ "" /\ password ≠ "" /\
     getDocs (toLowerCase (trim email)) = inr ((id, doc) :: rest) /\
     UserDoc.password doc = Some password /\
     setItem "userLoggedIn" = None /\ setItem "userData" ≠ None /\
     handleLogin getDocs setItem email password st
     = ([ShowAlert title message], mkStorage (Some "true") (userData st)))
  \/
  ((trim email = "" \/ password = "" \/
    (forall id doc rest,
       getDocs (toLowerCase (trim email)) = inr ((id, doc) :: rest) ->
       UserDoc.password doc ≠ Some password) \/
    setItem "userLoggedIn" ≠ None) /\
   exists title message,
     handleLogin getDocs setItem email password st
     = ([ShowAlert title message], st)).
Proof.
  intros _. unfold handleLogin, emailLogin.
  destruct (decide (trim email = "")) as [He|He]; [right; right; eauto|].
  destruct (decide (password = "")) as [Hp|Hp]; [right; right; eauto 6|].
  destruct (getDocs (toLowerCase (trim email))) as [e|[|[id doc] rest]] eqn:Hq.
  - right; right. split; [right; right; left; intros; congruence|].
    apply loginAlert.
  - right; right. split; [right; right; left; intros; congruence|].
    simpl. eauto.
  - destruct (decide (UserDoc.password doc = Some password)) as [Hpw|Hpw].
    + destruct (persistLogin_cases setItem id
                  (orElse (UserDoc.name doc) "")
                  (orElse (UserDoc.email doc) email)
                  (orElse (UserDoc.provider doc) "email") st)
        as [(H1 & H2 & ->)|[(e & H1 & ->)|(e & H1 & H2 & ->)]].
      * left. exists id, doc, rest. done.
      * right; right. split; [right; right; right; congruence|].
        apply loginAlert.
      * right; left.
        destruct (loginAlert e (mkStorage (Some "true") (userData st)))
          as (title & message & ->).
        exists id, doc, rest, title, message.
        split_and!; try done. congruence.
    + right; right. split; [|simpl; eauto].
      right; right; left. intros id' doc' rest' [= <- <- <-]. done.
Qed.

Lemma handleLogin_outcome_witness :
  (exists id doc rest,
     trim " Ravi@Farm.in " ≠ "" /\ "monsoon" ≠ "" /\
     oneAccount (toLowerCase (trim " Ravi@Farm.in ")) = inr ((id, doc) :: rest) /\
     UserDoc.password doc = Some "monsoon" /\
     fullAfterFirst "userLoggedIn" = None /\ fullAfterFirst "userData" = None /\
     handleLogin oneAccount fullAfterFirst " Ravi@Farm.in " "monsoon"
       (mkStorage None None)
     = ([RouterReplace "/"],
        mkStorage (Some "true")
          (Some (UserData.mk (Some id)
                   (Some (orElse (UserDoc.name doc) ""))
                   (Some (orElse (UserDoc.email doc) " Ravi@Farm.in "))
                   (Some (orElse (UserDoc.provider doc) "email"))))))
  \/
  (exists id doc rest title message,
     trim " Ravi@Farm.in " ≠ "" /\ "monsoon" ≠ "" /\
     oneAccount (toLowerCase (trim " Ravi@Farm.in ")) = inr ((id, doc) :: rest) /\
     UserDoc.password doc = Some "monsoon" /\
     fullAfterFirst "userLoggedIn" = None /\ fullAfterFirst "userData" ≠ None /\
     handleLogin oneAccount fullAfterFirst " Ravi@Farm.in " "monsoon"
       (mkStorage None None)
     = ([ShowAlert title message],
        mkStorage (Some "true") (userData (mkStorage None None))))
  \/
  ((trim " Ravi@Farm.in " = "" \/ "monsoon" = "" \/
    (forall id doc rest,
       oneAccount (toLowerCase (trim " Ravi@Farm.in ")) = inr ((id, doc) :: rest) ->
       UserDoc.password doc ≠ Some "monsoon") \/
    fullAfterFirst "userLoggedIn" ≠ None) /\
   exists title message,
     handleLogin oneAccount fullAfterFirst " Ravi@Farm.in " "monsoon"
       (mkStorage None None)
     = ([ShowAlert title message], mkStorage None None)).
Proof.
  apply (handleLogin_outcome oneAccount fullAfterFirst " Ravi@Farm.in " "monsoon"
           (mkStorage None None)).
  vm_compute. repeat split; lia.
Defined.

(** With a blank email or an empty password [handleLogin] asks
    Firestore nothing and writes nothing: whatever the query and the
    writes would give, it shows the same single alert and leaves the
    storage as it was. *)
Theorem handleLogin_blank (email password : string) (st : Storage) :
  trim email = "" \/ password = "" ->
  exists title message,
    forall getDocs setItem,
      handleLogin getDocs setItem email password st
      = ([ShowAlert title message], st).
Proof.
  intros Hblank. unfold handleLogin.
  destruct (decide (trim email = "")) as [He|He]; [eauto|].
  destruct Hblank as [Hblank|Hblank]; [done|].
  destruct (decide (password = "")); [eauto|done].
Qed.

Lemma handleLogin_blank_witness :
  exists title message,
    forall getDocs setItem,
      handleLogin getDocs setItem " " "monsoon" (mkStorage None None)
      = ([ShowAlert title message], mkStorage None None).
Proof.
  apply (handleLogin_blank " " "monsoon" (mkStorage None None)).
  left. reflexivity.
Defined.

(** [registerUser] resolves with an id only when the query on the
    trimmed, lower-cased email found no document, and the id is the one
    [addDoc] gave for the document with the trimmed name, that email, the
    password and the provider "email". When the query finds a document it
    throws [EMAIL_EXISTS] and adds nothing, whatever [addDoc] would do. *)
Lemma registerUser_outcome
    (getDocs : GetDocs) (addDoc : AddDoc) (name email password : string) :
  (forall id,
     registerUser getDocs addDoc name email password = inr id <->
     getDocs (toLowerCase (trim email)) = inr [] /\
     addDoc (UserDoc.mk (Some (trim name)) (Some (toLowerCase (trim email)))
               (Some password) (Some "email")) = inr id) /\
  (forall doc docs,
     getDocs (toLowerCase (trim email)) = inr (doc :: docs) ->
     forall addDoc',
       registerUser getDocs addDoc' name email password
       = inl (Thrown.mk (Some "EMAIL_EXISTS") None)).
Proof.
  unfold registerUser. split.
  - intros id.
    destruct (getDocs (toLowerCase (trim email))) as [e|[|doc docs]];
      split; intros H; try done; by destruct H.
  - intros doc docs Hq addDoc'. by rewrite Hq.
Qed.

Lemma handleSignup_navigates
    (getDocs : GetDocs) (addDoc : AddDoc) (setItem : SetItem)
    (name email password : string) (st st' : Storage) :
  handleSignup getDocs addDoc setItem name email password st
    = ([RouterReplace "/"], st') ->
  exists userId,
    trim name ≠ "" /\ trim email ≠ "" /\ password ≠ "" /\
    registerUser getDocs addDoc name email password = inr userId /\
    setItem "userLoggedIn" = None /\ setItem "userData" = None /\
    st' = mkStorage (Some "true")
            (Some (UserData.mk (Some userId) (Some (trim name))
                     (Some (toLowerCase (trim email))) (Some "email"))).
Proof.
  unfold handleSignup, setUserLoggedIn, setUserData, signupAlert.
  destruct (decide (trim name = "")); [done|].
  destruct (decide (trim email = "")); [done|].
  destruct (decide (password = "")); [done|].
  destruct (decide (String.length password < 6)%nat); [done|].
  destruct (registerUser getDocs addDoc name email password) as [e|userId];
    [by case_decide|].
  destruct (setItem "userLoggedIn") as [e|]; [by case_decide|].
  destruct (setItem "userData") as [e|]; [by case_decide|].
  simpl. intros [= <-]. exists userId. done.
Qed.

(** X25. A sign-up and the sign-in that follows agree on the account.
    Take a name, emails and a password of ASCII characters. When
    [handleSignup] went through (it replaced the route by "/") and the
    query on the trimmed, lower-cased email now finds the document
    [registerUser] added, then [handleLogin] with the same password and
    with the email typed in any case and with any blanks around it, its
    two writes going through, also replaces the route by "/" and leaves
    the very session the sign-up left. *)
Theorem signup_then_login
    (getDocs getDocs' : GetDocs) (addDoc : AddDoc) (setItem setItem' : SetItem)
    (name email email' password userId : string) (st0 st1 st : Storage) :
  asciiOnly name -> asciiOnly email -> asciiOnly email' -> asciiOnly password ->
  handleSignup getDocs addDoc setItem name email password st0
    = ([RouterReplace "/"], st1) ->
  registerUser getDocs addDoc name email password = inr userId ->
  getDocs' (toLowerCase (trim email))
    = inr [(userId,
            UserDoc.mk (Some (trim name)) (Some (toLowerCase (trim email)))
              (Some password) (Some "email"))] ->
  toLowerCase (trim email') = toLowerCase (trim email) ->
  setItem' "userLoggedIn" = None -> setItem' "userData" = None ->
  handleLogin getDocs' setItem' email' password st = ([RouterReplace "/"], st1).
Proof.
  intros _ _ _ _ Hsignup Hreg Hfound Hsame Hw1' Hw2'.
  apply handleSignup_navigates
    in Hsignup as (userId' & Hn & He & Hp & Hreg' & _ & _ & ->).
  rewrite Hreg in Hreg'. injection Hreg' as <-.
  assert (toLowerCase (trim email) ≠ "") as Hle by (by rewrite toLowerCase_empty).
  assert (trim email' ≠ "") as He'.
  { intros Hblank. rewrite Hblank in Hsame. simpl in Hsame. done. }
  unfold handleLogin, emailLogin.
  rewrite (decide_False (P := trim email' = "")) by done.
  rewrite (decide_False (P := password = "")) by done.
  rewrite Hsame, Hfound. simpl.
  rewrite (decide_True (P := Some password = Some password)) by done.
  unfold persistLogin, setUserLoggedIn, setUserData. rewrite Hw1', Hw2'. simpl.
  unfold orElse.
  rewrite (decide_False (P := trim name = "")) by done.
  rewrite (decide_False (P := toLowerCase (trim email) = "")) by done.
  done.
Qed.

Lemma signup_then_login_witness :
  handleLogin
    (fun _ =>
       inr [("uid2",
             UserDoc.mk (Some (trim " Ravi ")) (Some (toLowerCase (trim " Ravi@Farm.IN")))
               (Some "monsoon") (Some "email"))])
    allWrites "ravi@farm.in " "monsoon" (mkStorage None None)
  = ([RouterReplace "/"],
     mkStorage (Some "true")
       (Some (UserData.mk (Some "uid2") (Some "Ravi") (Some "ravi@farm.in")
                (Some "email")))).
Proof.
  apply (signup_then_login (fun _ => inr [])
           (fun _ =>
              inr [("uid2",
                    UserDoc.mk (Some (trim " Ravi "))
                      (Some (toLowerCase (trim " Ravi@Farm.IN")))
                      (Some "monsoon") (Some "email"))])
           freshIds allWrites allWrites
           " Ravi " " Ravi@Farm.IN" "ravi@farm.in " "monsoon"
           "uid2" (mkStorage (Some "guest") None)).
  - vm_compute. repeat split; lia.
  - vm_compute. repeat split; lia.
  - vm_compute. repeat split; lia.
  - vm_compute. repeat split; lia.
  - reflexivity.
  - reflexivity.
  - reflexivity.
  - reflexivity.
  - reflexivity.
  - reflexivity.
Defined.

(** X26. [handleSignup] asks Firestore nothing and writes nothing when
    the form is not valid: with a blank name, a blank email or a password
    shorter than six characters it shows the same single alert whatever
    the query, [addDoc] and the writes would give, and leaves the storage
    as it was. *)
Theorem handleSignup_invalid (name email password : string) (st : Storage) :
  trim name = "" \/ trim email = "" \/ (String.length password < 6)%nat ->
  exists title message,
    forall getDocs addDoc setItem,
      handleSignup getDocs addDoc setItem name email password st
      = ([ShowAlert title message], st).
Proof.
  intros Hinvalid. unfold handleSignup.
  destruct (decide (trim name = "")) as [Hn|Hn]; [eauto|].
  destruct (decide (trim email = "")) as [He|He]; [eauto|].
  destruct (decide (password = "")) as [Hp|Hp]; [eauto|].
  destruct Hinvalid as [?|[?|Hshort]]; [done|done|].
  destruct (decide (String.length password < 6)%nat); [eauto|done].
Qed.

Lemma handleSignup_invalid_witness :
  exists title message,
    forall getDocs addDoc setItem,
      handleSignup getDocs addDoc setItem "Ravi" "ravi@farm.in" "rain"
        (mkStorage None None)
      = ([ShowAlert title message], mkStorage None None).
Proof.
  apply (handleSignup_invalid "Ravi" "ravi@farm.in" "rain" (mkStorage None None)).
  right; right. vm_compute. lia.
Defined.






(** X30. The strength meter never goes down as the password grows: of
    two passwords of ASCII characters, the one at least as long as the
    other gets a fraction at least as large. *)
Theorem getStrength_monotone (pwd pwd' : string) :
  asciiOnly pwd -> asciiOnly pwd' ->
  (String.length pwd <= String.length pwd')%nat ->
  (Strength.fraction (getStrength pwd) <= Strength.fraction (getStrength pwd'))%Q.
Proof.
  intros _ _ Hlen. unfold getStrength.
  repeat case_decide; simpl; try lia; unfold Qle; simpl; lia.
Qed.

Lemma getStrength_monotone_witness :
  (Strength.fraction (getStrength "rain")
   <= Strength.fraction (getStrength "monsoon"))%Q.
Proof.
  apply (getStrength_monotone "rain" "monsoon").
  - vm_compute. repeat split; lia.
  - vm_compute. repeat split; lia.
  - vm_compute. lia.
Defined.

Example signin_run :
  handleLogin oneAccount allWrites " Ravi@Farm.in " "monsoon" (mkStorage None None)
  = ([RouterReplace "/"],
     mkStorage (Some "true")
       (Some (UserData.mk (Some "uid1") (Some "Ravi") (Some "ravi@farm.in")
                (Some "email")))) /\
  handleLogin oneAccount fullAfterFirst " Ravi@Farm.in " "monsoon"
    (mkStorage None None)
  = ([ShowAlert "Login Failed" "database or disk is full"],
     mkStorage (Some "true") None) /\
  handleLogin oneAccount allWrites "ravi@farm.in" "drought" (mkStorage None None)
  = ([ShowAlert "Wrong Password"
        "The password you entered is incorrect. Please try again."],
     mkStorage None None) /\
  handleLogin oneAccount allWrites "hari@farm.in" "monsoon" (mkStorage None None)
  = ([ShowAlert "No Account Found"
        "No account registered with that email. Please sign up first."],
     mkStorage None None) /\
  handleSignup oneAccount freshIds allWrites "Ravi" "RAVI@farm.in" "monsoon"
    (mkStorage None None)
  = ([ShowAlert "Account Already Exists"
        "An account with this email already exists. Please login instead."],
     mkStorage None None).
Proof. split_and!; reflexivity. Qed.

(** ** Ties in the sort, and the reactions on the screen *)

Section sort_stable_facts.

Context {A : Type} (cmp : A -> A -> Z) (key : A -> Z).

(** What the comparators of the source have: an element goes behind
    another only when their keys differ. *)
Hypothesis cmp_key : forall a b, 0 < cmp a b -> key a ≠ key b.

Lemma js_insert_filter_key (k : Z) x l :
  filter (fun a => key a = k) (js_insert cmp x l)
  = filter (fun a => key a = k) (x :: l).
Proof.
  induction l as [|y l IH]; simpl; [done|].
  case_decide as Hxy; [|done].
  apply cmp_key in Hxy.
  rewrite (filter_cons _ y (js_insert cmp x l)), IH.
  rewrite !filter_cons. repeat case_decide; congruence.
Qed.

Lemma js_sort_filter_key (k : Z) l :
  filter (fun a => key a = k) (js_sort cmp l) = filter (fun a => key a = k) l.
Proof.
  induction l as [|x l IH]; simpl; [done|].
  rewrite js_insert_filter_key, !filter_cons, IH. done.
Qed.

End sort_stable_facts.

(** X3. Ties keep their order: among the posts with one and the same
    [createdAt], [fetchPosts] resolves with them in the order they have in
    [_stubPosts] (last created first); among the comments with one and the
    same [createdAt] kept for a post id that names nothing inherited from
    [Object.prototype], [fetchComments] resolves with them in the order
    they are stored. *)
Theorem fetch_ties_keep_order (s : Store) (postId : string) (t : Z) :
  plainId postId ->
  (exists posts,
     outcome fetchPosts s = Resolved posts /\
     filter (fun p => Post.createdAt p = t) posts
     = filter (fun p => Post.createdAt p = t) (_stubPosts s)) /\
  (exists comments,
     outcome (fetchComments postId) s = Resolved comments /\
     filter (fun c => Comment.createdAt c = t) comments
     = filter (fun c => Comment.createdAt c = t) (commentsOf postId s)).
Proof.
  intros _. split.
  - eexists. split; [reflexivity|].
    apply (js_sort_filter_key _ Post.createdAt). intros a b Hab. lia.
  - eexists. split; [apply outcome_fetchComments|].
    apply (js_sort_filter_key _ Comment.createdAt).
    intros a b Hab. unfold byCreatedAt in Hab. lia.
Qed.

Lemma fetch_ties_keep_order_witness :
  (exists posts,
     outcome fetchPosts sameClockStore = Resolved posts /\
     filter (fun p => Post.createdAt p = 1003) posts
     = filter (fun p => Post.createdAt p = 1003) (_stubPosts sameClockStore)) /\
  (exists comments,
     outcome (fetchComments "post_1000") sameClockStore = Resolved comments /\
     filter (fun c => Comment.createdAt c = 1003) comments
     = filter (fun c => Comment.createdAt c = 1003)
         (commentsOf "post_1000" sameClockStore)).
Proof.
  apply (fetch_ties_keep_order sameClockStore "post_1000" 1003).
  apply (bool_decide_unpack _). vm_compute. exact I.
Defined.

(** X24. On the screen the reactions are consistent without any
    assumption: in every store built from the empty one by [submit],
    [send] and [handleReact], whatever the clock reads, every post has no
    user twice in [likedBy] or in [dislikedBy], no user in both, and
    [likeCount] and [dislikeCount] equal to the lengths of the two
    arrays. *)
Theorem screen_reactions_consistent (evs : list Event) (p : Post.t) :
  p ∈ _stubPosts (runEvents evs initialStore) ->
  NoDup (Post.likedBy p) /\ NoDup (Post.dislikedBy p) /\
  Post.likeCount p = Z.of_nat (length (Post.likedBy p)) /\
  Post.dislikeCount p = Z.of_nat (length (Post.dislikedBy p)) /\
  forall u, ~ (u ∈ Post.likedBy p /\ u ∈ Post.dislikedBy p).
Proof.
  intros Hp.
  destruct (screen_posts_wellFormed evs p Hp) as [(Hl & Hd & Hcl & Hcd) Hex].
  split_and!; [done..|]. intros u. apply Hex.
Qed.

Lemma screen_reactions_consistent_witness :
  NoDup (Post.likedBy (react "u2" like (Post.setCommentCount 2 rainPost))) /\
  NoDup (Post.dislikedBy (react "u2" like (Post.setCommentCount 2 rainPost))) /\
  Post.likeCount (react "u2" like (Post.setCommentCount 2 rainPost))
    = Z.of_nat (length (Post.likedBy (react "u2" like (Post.setCommentCount 2 rainPost)))) /\
  Post.dislikeCount (react "u2" like (Post.setCommentCount 2 rainPost))
    = Z.of_nat (length (Post.dislikedBy (react "u2" like (Post.setCommentCount 2 rainPost)))) /\
  forall u,
    ~ (u ∈ Post.likedBy (react "u2" like (Post.setCommentCount 2 rainPost)) /\
       u ∈ Post.dislikedBy (react "u2" like (Post.setCommentCount 2 rainPost))).
Proof.
  apply (screen_reactions_consistent screenEvents).
  vm_compute. apply list_elem_of_further, list_elem_of_here.
Defined.
